(** * ResearchAI: ingestion chunking and retrieval pipeline

    A shallow embedding of the chunker, the metadata extractor, the
    ingestion orchestrator (ingestInfo.js), the retriever and the answer
    functions (retrieveInfo.js), the SQL search function
    [match_information] (create-table.sql), the HTTP handlers that call
    them (controllers) and the log history (logger.js), with the properties
    of the specification stated and settled against them, and further
    properties read off the code.

    Conventions of the embedding.
    - A JavaScript string is the list of its UTF-16 code units.
    - [chunkSize], [overlap], [matchCount] are integers ([Z]); word counts
      and indexes computed from them stay in [Z], as the source subtracts
      them freely.
    - A similarity score or distance is a [float8]: a number (a rational,
      [Q]) or NaN; thresholds are numbers. The subtraction [1 - d] of the
      search is a parameter, since [float8] arithmetic rounds.
    - The [while] loop of [chunkText] runs on fuel and returns [None] when
      the fuel is spent; the theorems show how much fuel always suffices.
    - The outside world (file system, model endpoints, database client,
      clock) is a record of oracles. Of the [logger] calls, what is
      modelled is what they can throw inside a [try]: the conversion to
      a string of the values their messages print. *)

From Stdlib Require Import ZArith List Lia QArith Lqa String Ascii DecimalString Sorted.
From stdpp Require Import gmap list.
Import ListNotations.

Local Open Scope Z_scope.
Set Warnings "-register-all".

(** ** JavaScript strings and arrays *)

Abbreviation jsstring := (list N).

(** An ASCII literal as a JavaScript string. *)
Definition js (s : string) : jsstring :=
  List.map N_of_ascii (list_ascii_of_string s).

(** The code units matched by [\s] in a regular expression, which are also
    the ones [String.prototype.trim] strips (WhiteSpace and LineTerminator). *)
Definition is_ws (c : N) : bool :=
  match c with
  | 9 | 10 | 11 | 12 | 13 | 32 | 160 | 5760
  | 8232 | 8233 | 8239 | 8287 | 12288 | 65279 => true
  | _ => (8192 <=? c) && (c <=? 8202)
  end%N.

(** [text.split(/\s+/)]: [cur] is the token being read (reversed), [inrun]
    tells that the previous code unit was whitespace. A leading or trailing
    run of whitespace yields an empty first or last token. *)
Fixpoint split_go (inrun : bool) (cur : jsstring) (s : jsstring) : list jsstring :=
  match s with
  | [] => [rev cur]
  | c :: s' =>
      if is_ws c then
        if inrun then split_go true cur s'
        else rev cur :: split_go true [] s'
      else split_go false (c :: cur) s'
  end.

Definition split_ws (s : jsstring) : list jsstring := split_go false [] s.

(** [text.split(/\s+/).filter(word => word.length > 0)] *)
Definition words (text : jsstring) : list jsstring :=
  List.filter (fun word => (0 <? length word)%nat) (split_ws text).

Fixpoint trimStart (s : jsstring) : jsstring :=
  match s with
  | c :: s' => if is_ws c then trimStart s' else s
  | [] => []
  end.

Definition trimEnd (s : jsstring) : jsstring := rev (trimStart (rev s)).

(** [text.trim()] *)
Definition trim (s : jsstring) : jsstring := trimEnd (trimStart s).

(** [array.join(sep)] on an array of strings. *)
Fixpoint join (sep : jsstring) (l : list jsstring) : jsstring :=
  match l with
  | [] => []
  | [w] => w
  | w :: rest => w ++ sep ++ join sep rest
  end.

(** [array.slice(start, end)] with JavaScript's treatment of negative and
    out-of-range indexes. *)
Definition slice {A : Type} (l : list A) (start end_ : Z) : list A :=
  let len := Z.of_nat (length l) in
  let k := if start <? 0 then Z.max (len + start) 0 else Z.min start len in
  let final := if end_ <? 0 then Z.max (len + end_) 0 else Z.min end_ len in
  firstn (Z.to_nat (final - k)) (skipn (Z.to_nat k) l).

(** ** Chunker (ingestInfo.js, [chunkText]) *)

(** The [while (startIndex < words.length)] loop. [chunks] is the array
    built so far; the loop leaves through its condition or through the
    [break] of the overlap guard. *)
Fixpoint chunkLoop (fuel : nat) (ws : list jsstring) (chunkSize overlap : Z)
    (startIndex : Z) (chunks : list jsstring) : option (list jsstring) :=
  match fuel with
  | O => None
  | S fuel' =>
      if startIndex <? Z.of_nat (length ws) then
        let endIndex := Z.min (startIndex + chunkSize) (Z.of_nat (length ws)) in
        let chunkWords := slice ws startIndex endIndex in
        let chunk := join (js " ") chunkWords in
        let chunks' := chunks ++ [chunk] in
        let startIndex' := startIndex + (chunkSize - overlap) in
        if (startIndex' <=? Z.of_nat (length chunks') - 1) && (overlap >=? chunkSize)
        then Some chunks'
        else chunkLoop fuel' ws chunkSize overlap startIndex' chunks'
      else Some chunks
  end.

Definition chunkText_fuel (fuel : nat) (text : jsstring) (chunkSize overlap : Z)
    : option (list jsstring) :=
  let ws := words text in
  if Z.of_nat (length ws) <=? chunkSize then Some [trim text]
  else chunkLoop fuel ws chunkSize overlap 0 [].

(** The loop body runs at most once per word, so this much fuel is enough
    ([chunkText_fuel_enough] below); the value off the fuel is never taken. *)
Definition chunkText (text : jsstring) (chunkSize overlap : Z) : list jsstring :=
  default [] (chunkText_fuel (S (length (words text))) text chunkSize overlap).

(** Rounded-up quotient of integers, for a positive divisor. *)
Definition ceil_div (a b : Z) : Z := (a + b - 1) / b.


(** The window the loop cuts at [startIndex], and the windows of [n]
    successive rounds: what the loop computes, written without the loop. *)
Definition window (ws : list jsstring) (chunkSize startIndex : Z) : jsstring :=
  join (js " ")
    (slice ws startIndex (Z.min (startIndex + chunkSize) (Z.of_nat (length ws)))).

Definition windows_from (ws : list jsstring) (chunkSize overlap startIndex : Z)
    (n : nat) : list jsstring :=
  List.map (fun j => window ws chunkSize (startIndex + Z.of_nat j * (chunkSize - overlap)))
    (seq 0 n).

(** The result of [chunkText] without fuel: one trimmed chunk for a short
    text, one window when the step is not positive, else one window per
    step. That the loop computes it is [chunkText_fuel_closed]. *)
Definition chunk_list (text : jsstring) (chunkSize overlap : Z) : list jsstring :=
  let ws := words text in
  if Z.of_nat (length ws) <=? chunkSize then [trim text]
  else if chunkSize <=? overlap then
    match ws with [] => [] | _ :: _ => [window ws chunkSize 0] end
  else windows_from ws chunkSize overlap 0
         (Z.to_nat (ceil_div (Z.of_nat (length ws)) (chunkSize - overlap))).

(** A word as the tokenizer produces it: not empty, no whitespace inside. *)
Definition no_ws (w : jsstring) : Prop := Forall (fun c => is_ws c = false) w.

Definition is_word (w : jsstring) : Prop := w <> [] /\ no_ws w.

(** ** Values shared by ingestion and retrieval *)

(** A call that may throw: its value, or the message of the [Error]. *)
Inductive outcome (A : Type) : Type :=
| Returns (a : A)
| Throws (message : jsstring).
Arguments Returns {A} a.
Arguments Throws {A} message.

(** JSON values, as [JSON.parse] yields them and as [jsonb] stores them. *)
Inductive json : Type :=
| JNull
| JBool (b : bool)
| JNum (n : Q)
| JStr (s : jsstring)
| JArr (items : list json)
| JObj (fields : list (jsstring * json)).

(** A metadata object: a map from field name to value. *)
Abbreviation metadata := (gmap jsstring json).

Abbreviation vector := (list Q).

(** A [float8] value of the search: a number, or NaN, which is what the
    cosine distance of a zero vector is. (A NaN similarity reaches the
    client as a JSON string, which its arithmetic turns into NaN again.) *)
Inductive float8 : Type :=
| Finite (q : Q)
| NaN.

(** JavaScript truthiness of a JSON value. *)
Definition truthy (v : json) : bool :=
  match v with
  | JNull => false
  | JBool b => b
  | JNum n => negb (Qeq_bool n 0)
  | JStr s => match s with [] => false | _ :: _ => true end
  | JArr _ | JObj _ => true
  end.

(** Conversion to a string, as a template literal and [Array.prototype.join]
    perform it. An object with a field named [toString] cannot be
    converted: the field, a JSON value, is not callable, and
    [Object.prototype.valueOf] answers the object itself, so the conversion
    throws a TypeError. An array is converted by joining its elements, each
    converted in turn. Every other value converts. *)
Fixpoint stringifiable (v : json) : bool :=
  match v with
  | JObj fields => negb (existsb (fun kv => bool_decide (kv.1 = js "toString")) fields)
  | JArr items => forallb stringifiable items
  | JNull | JBool _ | JNum _ | JStr _ => true
  end.

(** The property key of an array index. *)
Definition index_key (i : nat) : jsstring :=
  js (NilZero.string_of_uint (Nat.to_uint i)).

(** Object spread [{...v}]: the own enumerable properties of [v]; a later
    duplicate of a key replaces an earlier one. *)
Definition spread (v : json) : metadata :=
  match v with
  | JObj fields => foldl (fun m kv => <[kv.1 := kv.2]> m) ∅ fields
  | JArr items => list_to_map (imap (fun i x => (index_key i, x)) items)
  | JStr s => list_to_map (imap (fun i c => (index_key i, JStr [c])) s)
  | JNull | JBool _ | JNum _ => ∅
  end.

(** config.js, [models]. *)
Definition models_embedding : jsstring := js "text-embedding-3-small".
Definition models_chat : jsstring := js "gpt-4o-mini".
Definition models_chatAdvanced : jsstring := js "gpt-4o".

Record File := {
  file_filename : jsstring;
  file_content : jsstring }.

(** An entry of the in-memory buffer [embeddedResults]. *)
Record EmbeddedResult := {
  res_filename : jsstring;
  res_content : jsstring;
  res_embedding : vector;
  res_metadata : metadata;
  res_createdAt : jsstring }.

(** A row of the table [embeddedinfo] (create-table.sql); [metadata] and
    [embedding] are nullable columns. *)
Record DbRow := {
  row_id : Z;
  row_filename : jsstring;
  row_content : jsstring;
  row_metadata : option metadata;
  row_embedding : option vector;
  row_created_at : jsstring }.

(** A row returned by [match_information]. *)
Record SearchRow := {
  hit_id : Z;
  hit_content : jsstring;
  hit_metadata : option metadata;
  hit_similarity : float8 }.

(** The argument object of [supabase.rpc("match_information", rpcParams)];
    an absent [filter] key is [None]. *)
Record RpcParams := {
  rpc_query_embedding : vector;
  rpc_match_count : Z;
  rpc_match_threshold : Q;
  rpc_filter : option metadata }.

(** The [{ data, error }] object a Supabase call resolves to. *)
Record RpcReply := {
  reply_data : option (list SearchRow);
  reply_error : option jsstring }.

(** What the generation call gives back:
    [choices[0]?.message?.content] and [usage?.total_tokens]. *)
Record Completion := {
  completion_content : option jsstring;
  completion_total_tokens : option Z }.

(** The collaborators of the core, as oracles. Each request is answered
    as a function of what is sent. *)
Record Services := {
  (* fs and path *)
  fs_readdir : outcome (list jsstring);
  fs_stat_isFile : jsstring -> outcome bool;
  fs_readFile : jsstring -> outcome jsstring;
  path_extname : jsstring -> jsstring;
  (* the metadata-extraction request for a document's content: the text
     of [response.choices[0].message.content] *)
  chat_extract : jsstring -> outcome jsstring;
  JSON_parse : jsstring -> outcome json;
  (* the message of the TypeError raised by calling the named method
     where the value has none *)
  not_a_function : jsstring -> jsstring;
  (* the message of the TypeError raised by converting to a string an
     object that cannot be converted *)
  cannot_convert : jsstring;
  (* [openai.embeddings.create], reduced to [data[0].embedding] *)
  embeddings_create : jsstring -> outcome vector;
  (* the generation request of [getEnhancedAnswer], whose two prompts are
     built from the question and the retrieved rows *)
  chat_answer : jsstring -> list SearchRow -> outcome Completion;
  (* supabase: [delete().neq("id", 0)], [insert(record)] and
     [rpc("match_information", params)]; [Some message] is [{ error }] *)
  db_delete : outcome (option jsstring);
  db_insert : EmbeddedResult -> outcome (option jsstring);
  db_rpc_match_information : RpcParams -> outcome RpcReply;
  (* the clock and number rendering *)
  now_iso : jsstring;
  elapsed_seconds : jsstring;
  toFixed1 : Q -> jsstring }.

(** ** Metadata extractor (ingestInfo.js, [extractMetadataWithAI]) *)

(** [path.extname(filename).slice(1) || 'txt'] *)
Definition file_type_of (W : Services) (filename : jsstring) : jsstring :=
  match drop 1 (path_extname W filename) with
  | [] => js "txt"
  | ext => ext
  end.

(** A log line [if (m.key) logger.data(.., `.. ${m.key}`)] throws when the
    field is truthy and cannot be converted to a string. *)
Definition field_log_throws (m : metadata) (key : jsstring) : bool :=
  match m !! key with
  | Some v => truthy v && negb (stringifiable v)
  | None => false
  end.

(** The skills line of the success log evaluates
    [metadata.skills.slice(0, 5).join(', ')] whenever [metadata.skills?.length]
    is truthy. That throws for a non-empty string (no [join]), for an
    object with a truthy [length] field (no [slice]), and for an array one
    of whose first five elements cannot be converted to a string. The
    result is the message of the error. *)
Definition skills_log_throws (W : Services) (m : metadata) : option jsstring :=
  match m !! js "skills" with
  | Some (JStr (_ :: _)) => Some (not_a_function W (js "join"))
  | Some (JObj fields) =>
      match List.find (fun kv => bool_decide (kv.1 = js "length")) (rev fields) with
      | Some kv => if truthy kv.2 then Some (not_a_function W (js "slice")) else None
      | None => None
      end
  | Some (JArr items) =>
      if forallb stringifiable (take 5 items) then None else Some (cannot_convert W)
  | _ => None
  end.

(** The four lines that log the key fields of a successful extraction, in
    order: name, location, role, skills. The result is the message of the
    first error thrown, if any. *)
Definition success_log_throws (W : Services) (m : metadata) : option jsstring :=
  if field_log_throws m (js "name") || field_log_throws m (js "location")
     || field_log_throws m (js "role")
  then Some (cannot_convert W)
  else skills_log_throws W m.

(** The object returned from the [catch] block. *)
Definition basic_metadata (W : Services) (filename message : jsstring) : metadata :=
  <[js "extraction_error" := JStr message]>
    (<[js "extracted_at" := JStr (now_iso W)]>
      (<[js "file_type" := JStr (file_type_of W filename)]>
        (<[js "source_filename" := JStr filename]> ∅))).

Definition extractMetadataWithAI (W : Services) (content filename : jsstring)
    : metadata :=
  let attempt :=
    match chat_extract W content with
    | Returns text => JSON_parse W text
    | Throws message => Throws message
    end in
  match attempt with
  | Returns extractedMetadata =>
      let metadata :=
        <[js "extraction_model" := JStr models_chat]>
          (<[js "extracted_at" := JStr (now_iso W)]>
            (<[js "file_type" := JStr (file_type_of W filename)]>
              (<[js "source_filename" := JStr filename]>
                (spread extractedMetadata)))) in
      match success_log_throws W metadata with
      | Some message => basic_metadata W filename message
      | None => metadata
      end
  | Throws message => basic_metadata W filename message
  end.

(** ** Ingestion orchestrator (ingestInfo.js) *)

(** The state the pipeline works on: the module-level buffer
    [embeddedResults] and the table [embeddedinfo] with its id sequence. *)
Record State := {
  embeddedResults : list EmbeddedResult;
  embeddedinfo : list DbRow;
  next_id : Z }.

(** [readInfoFiles]: every directory entry that is a file, with its
    content; an error of any call is rethrown. *)
Fixpoint readEntries (W : Services) (fileNames : list jsstring) (files : list File)
    : outcome (list File) :=
  match fileNames with
  | [] => Returns files
  | fileName :: rest =>
      match fs_stat_isFile W fileName with
      | Throws message => Throws message
      | Returns false => readEntries W rest files
      | Returns true =>
          match fs_readFile W fileName with
          | Throws message => Throws message
          | Returns content =>
              readEntries W rest
                (files ++ [{| file_filename := fileName; file_content := content |}])
          end
      end
  end.

Definition readInfoFiles (W : Services) : outcome (list File) :=
  match fs_readdir W with
  | Throws message => Throws message
  | Returns fileNames => readEntries W fileNames []
  end.

Definition generateEmbedding (W : Services) (content : jsstring) : outcome vector :=
  embeddings_create W content.

Definition JInt (n : nat) : json := JNum (inject_Z (Z.of_nat n)).

(** The buffer entry of chunk [i]: the file's metadata with the
    chunk-position fields added. *)
Definition chunkResult (W : Services) (file : File) (fileMetadata : metadata)
    (totalChunks i : nat) (chunk : jsstring) (embedding : vector) : EmbeddedResult :=
  let chunkNumber := (i + 1)%nat in
  let chunkMetadata :=
    <[js "chunk_size_words" := JInt (length (split_ws chunk))]>
      (<[js "chunk_size_chars" := JInt (length chunk)]>
        (<[js "total_chunks" := JInt totalChunks]>
          (<[js "chunk_number" := JInt chunkNumber]>
            (<[js "chunk_index" := JInt i]> fileMetadata)))) in
  {| res_filename := file_filename file;
     res_content := chunk;
     res_embedding := embedding;
     res_metadata := chunkMetadata;
     res_createdAt := now_iso W |}.

(** The loop over the chunks of one file, from index [i] on. It stops at
    the first embedding call that throws; what was pushed before stays in
    the buffer. *)
Fixpoint embedChunks (W : Services) (file : File) (fileMetadata : metadata)
    (totalChunks i : nat) (chunks : list jsstring) (results : list EmbeddedResult)
    : outcome unit * list EmbeddedResult :=
  match chunks with
  | [] => (Returns tt, results)
  | chunk :: rest =>
      match generateEmbedding W chunk with
      | Throws message => (Throws message, results)
      | Returns embedding =>
          embedChunks W file fileMetadata totalChunks (S i) rest
            (results ++ [chunkResult W file fileMetadata totalChunks i chunk embedding])
      end
  end.

(** The body of the loop over files, with its [try]/[catch]: metadata once
    per file, then the chunks; an error is logged and the file left. *)
Definition ingestFile (W : Services) (file : File) (results : list EmbeddedResult)
    : list EmbeddedResult :=
  let fileMetadata := extractMetadataWithAI W (file_content file) (file_filename file) in
  let chunks := chunkText (file_content file) 300 50 in
  let totalChunks := length chunks in
  snd (embedChunks W file fileMetadata totalChunks 0 chunks results).

Definition ingestAndEmbed (W : Services) (st : State) : outcome State :=
  match readInfoFiles W with
  | Throws message => Throws message
  | Returns files =>
      Returns {| embeddedResults :=
                   foldl (fun results file => ingestFile W file results)
                     (embeddedResults st) files;
                 embeddedinfo := embeddedinfo st;
                 next_id := next_id st |}
  end.

(** The result object [{ success, error }] of [clearDatabase]. *)
Record ClearResult := {
  clear_success : bool;
  clear_error : option jsstring }.

(** [clearDatabase]: deletes the rows whose id is not 0; an error, thrown
    or returned, ends in the [catch] and is reported in the result. *)
Definition clearDatabase (W : Services) (st : State) : ClearResult * State :=
  match db_delete W with
  | Returns None =>
      ({| clear_success := true; clear_error := None |},
       {| embeddedResults := embeddedResults st;
          embeddedinfo := List.filter (fun row => row_id row =? 0) (embeddedinfo st);
          next_id := next_id st |})
  | Returns (Some message) | Throws message =>
      ({| clear_success := false; clear_error := Some message |}, st)
  end.

(** One [insert] of the persisting loop; a failure is counted and logged,
    and changes nothing. *)
Definition insertOne (W : Services) (st : State) (result : EmbeddedResult) : State :=
  match db_insert W result with
  | Returns None =>
      {| embeddedResults := embeddedResults st;
         embeddedinfo :=
           embeddedinfo st ++
             [{| row_id := next_id st;
                 row_filename := res_filename result;
                 row_content := res_content result;
                 row_metadata := Some (res_metadata result);
                 row_embedding := Some (res_embedding result);
                 row_created_at := res_createdAt result |}];
         next_id := next_id st + 1 |}
  | Returns (Some _) | Throws _ => st
  end.

Definition insertEmbeddedInfoToSupabase (W : Services) (st : State) : State :=
  match embeddedResults st with
  | [] => st
  | _ :: _ => foldl (insertOne W) st (embeddedResults st)
  end.

(** The object [runIngestion] resolves to; the success and the failure
    object carry different fields. *)
Record IngestionResult := {
  ingestion_success : bool;
  ingestion_filesProcessed : option nat;
  ingestion_chunksCreated : option nat;
  ingestion_duration : option jsstring;
  ingestion_error : option jsstring;
  ingestion_message : jsstring }.

Definition runIngestion (W : Services) (clearFirst : bool) (st : State)
    : IngestionResult * State :=
  let st0 := {| embeddedResults := [];
                embeddedinfo := embeddedinfo st;
                next_id := next_id st |} in
  let st1 := if clearFirst then snd (clearDatabase W st0) else st0 in
  match ingestAndEmbed W st1 with
  | Throws message =>
      ({| ingestion_success := false;
          ingestion_filesProcessed := None;
          ingestion_chunksCreated := None;
          ingestion_duration := None;
          ingestion_error := Some message;
          ingestion_message := js "Ingestion failed" |}, st1)
  | Returns st2 =>
      let st3 := insertEmbeddedInfoToSupabase W st2 in
      let filesProcessed :=
        size (list_to_set (List.map res_filename (embeddedResults st3)) : gset jsstring) in
      let chunksCreated := length (embeddedResults st3) in
      ({| ingestion_success := true;
          ingestion_filesProcessed := Some filesProcessed;
          ingestion_chunksCreated := Some chunksCreated;
          ingestion_duration := Some (elapsed_seconds W ++ js "s");
          ingestion_error := None;
          ingestion_message := js "Ingestion completed successfully" |}, st3)
  end.

(** ** Vector search (create-table.sql, [match_information]) *)

(** The operators of the query that PostgreSQL and pgvector supply: cosine
    distance [<=>], which is NaN when one of the vectors is zero; the
    [float8] subtraction [1 - d] on numbers, whose result is rounded; and
    jsonb containment [@>]. *)
Record Postgres := {
  cosine_distance : vector -> vector -> float8;
  one_minus : Q -> Q;
  jsonb_contains : metadata -> metadata -> bool }.

(** [1 - d]; NaN for NaN. *)
Definition similarity_of (pg : Postgres) (d : float8) : float8 :=
  match d with
  | Finite q => Finite (one_minus pg q)
  | NaN => NaN
  end.

(** PostgreSQL orders [float8] with NaN equal to itself and greater than
    every number: [x > t] for a number [t], and [x <= y]. *)
Definition float8_gt (x : float8) (t : Q) : bool :=
  match x with
  | Finite q => negb (Qle_bool q t)
  | NaN => true
  end.

Definition float8_le (x y : float8) : bool :=
  match x, y with
  | _, NaN => true
  | NaN, Finite _ => false
  | Finite a, Finite b => Qle_bool a b
  end.

(** [embedding <=> query_embedding]; NULL for a NULL embedding, which the
    WHERE clause below never lets through. *)
Definition distance (pg : Postgres) (query_embedding : vector) (row : DbRow)
    : option float8 :=
  match row_embedding row with
  | Some embedding => Some (cosine_distance pg embedding query_embedding)
  | None => None
  end.

(** The WHERE clause; a row stays only when the condition is true, so a
    NULL operand drops it. *)
Definition where_clause (pg : Postgres) (query_embedding : vector)
    (match_threshold : Q) (filter : option metadata) (row : DbRow) : bool :=
  match filter with
  | None => true
  | Some f =>
      match row_metadata row with
      | Some m => jsonb_contains pg m f
      | None => false
      end
  end
  && match distance pg query_embedding row with
     | Some d => float8_gt (similarity_of pg d) match_threshold
     | None => false
     end.

(** ORDER BY distance, ascending (NaN distances last), as an insertion
    sort on keyed rows. *)
Fixpoint insert_by_distance (x : float8 * DbRow) (l : list (float8 * DbRow))
    : list (float8 * DbRow) :=
  match l with
  | [] => [x]
  | y :: l' =>
      if float8_le (fst x) (fst y) then x :: l else y :: insert_by_distance x l'
  end.

Definition order_by_distance (l : list (float8 * DbRow)) : list (float8 * DbRow) :=
  foldr insert_by_distance [] l.

(** The function [match_information]. PostgreSQL raises an error for a
    negative LIMIT: no row set then ([None]). *)
Definition match_information (pg : Postgres) (table : list DbRow)
    (query_embedding : vector) (match_count : Z) (match_threshold : Q)
    (filter : option metadata) : option (list SearchRow) :=
  if match_count <? 0 then None
  else
    let selected :=
      List.filter (where_clause pg query_embedding match_threshold filter) table in
    let keyed :=
      omap (fun row => match distance pg query_embedding row with
                       | Some d => Some (d, row)
                       | None => None
                       end) selected in
    let limited := take (Z.to_nat match_count) (order_by_distance keyed) in
    Some (List.map (fun dr => {| hit_id := row_id (snd dr);
                                 hit_content := row_content (snd dr);
                                 hit_metadata := row_metadata (snd dr);
                                 hit_similarity := similarity_of pg (fst dr) |}) limited).

(** The values of the SQL type [int]. *)
Definition int4 (n : Z) : bool := (- 2 ^ 31 <=? n) && (n <? 2 ^ 31).

(** The decimal rendering of an integer. *)
Definition decimal (n : Z) : jsstring := js (NilZero.string_of_int (Z.to_int n)).

(** The RPC endpoint of the reference deployment: the SQL function run on
    the table, the call's arguments taken from the request. A [match_count]
    outside the type [int] of the parameter is refused before the function
    runs; so is, by the function, a negative LIMIT. *)
Definition rpc_via_sql (pg : Postgres) (table : list DbRow) (params : RpcParams)
    : outcome RpcReply :=
  if int4 (rpc_match_count params) then
    match match_information pg table (rpc_query_embedding params)
            (rpc_match_count params) (rpc_match_threshold params) (rpc_filter params) with
    | Some rows => Returns {| reply_data := Some rows; reply_error := None |}
    | None =>
        Returns {| reply_data := None;
                   reply_error := Some (js "LIMIT must not be negative") |}
    end
  else
    Returns {| reply_data := None;
               reply_error :=
                 Some (js "value " ++ [34%N] ++ decimal (rpc_match_count params)
                       ++ [34%N] ++ js " is out of range for type integer") |}.

(** ** Retriever (retrieveInfo.js) *)

(** The object [retrieveInformation] resolves to. *)
Record Retrieval := {
  retrieval_data : option (list SearchRow);
  retrieval_error : option jsstring;
  retrieval_queryEmbedding : option vector;
  retrieval_matchCount : Z }.

Definition generateQueryEmbedding (W : Services) (query : jsstring) : outcome vector :=
  embeddings_create W query.

(** The line of the result log that prints
    [`${meta.chunk_number}/${meta.total_chunks}`] when [meta.chunk_number]
    is truthy. *)
Definition chunk_log_throws (meta : metadata) : bool :=
  match meta !! js "chunk_number" with
  | Some v =>
      truthy v
      && negb (stringifiable v
               && match meta !! js "total_chunks" with
                  | Some t => stringifiable t
                  | None => true
                  end)
  | None => false
  end.

(** The log of one result row, inside the [try] of [retrieveInformation]:
    for a row with metadata, the lines for name, location, source_filename
    and chunk_number. *)
Definition metadata_log_throws (meta : metadata) : bool :=
  field_log_throws meta (js "name") || field_log_throws meta (js "location")
  || field_log_throws meta (js "source_filename") || chunk_log_throws meta.

Definition result_log_throws (result : SearchRow) : bool :=
  match hit_metadata result with
  | Some meta => metadata_log_throws meta
  | None => false
  end.

(** [data.forEach(...)] over the rows found. *)
Definition results_log_throws (data : option (list SearchRow)) : bool :=
  match data with
  | Some rows => existsb result_log_throws rows
  | None => false
  end.

(** [retrieveInformation(userQuery, matchCount, matchThreshold, metadataFilter)];
    [metadataFilter] is [None] for [null]. Whatever throws inside the [try]
    (the embedding call, the search call, the log of the rows found) ends
    in the [catch], which answers with the error and no embedding. *)
Definition retrieveInformation (W : Services) (userQuery : jsstring)
    (matchCount : Z) (matchThreshold : Q) (metadataFilter : option metadata)
    : Retrieval :=
  match generateQueryEmbedding W userQuery with
  | Throws message =>
      {| retrieval_data := None; retrieval_error := Some message;
         retrieval_queryEmbedding := None; retrieval_matchCount := matchCount |}
  | Returns queryEmbedding =>
      let rpcParams :=
        {| rpc_query_embedding := queryEmbedding;
           rpc_match_count := matchCount;
           rpc_match_threshold := matchThreshold;
           rpc_filter := metadataFilter |} in
      match db_rpc_match_information W rpcParams with
      | Throws message =>
          {| retrieval_data := None; retrieval_error := Some message;
             retrieval_queryEmbedding := None; retrieval_matchCount := matchCount |}
      | Returns reply =>
          match reply_error reply with
          | Some error =>
              {| retrieval_data := None; retrieval_error := Some error;
                 retrieval_queryEmbedding := Some queryEmbedding;
                 retrieval_matchCount := matchCount |}
          | None =>
              if results_log_throws (reply_data reply) then
                {| retrieval_data := None; retrieval_error := Some (cannot_convert W);
                   retrieval_queryEmbedding := None;
                   retrieval_matchCount := matchCount |}
              else
                {| retrieval_data := reply_data reply; retrieval_error := None;
                   retrieval_queryEmbedding := Some queryEmbedding;
                   retrieval_matchCount := matchCount |}
          end
      end
  end.

Definition retrieveByMetadataField (W : Services) (userQuery field : jsstring)
    (value : json) (matchCount : Z) : Retrieval :=
  let metadataFilter : metadata := {[ field := value ]} in
  retrieveInformation W userQuery matchCount 0 (Some metadataFilter).

Definition retrieveByName (W : Services) (name : jsstring) (matchCount : Z)
    : Retrieval :=
  let metadataFilter : metadata := {[ js "name" := JStr name ]} in
  retrieveInformation W (js "Information about " ++ name) matchCount 0
    (Some metadataFilter).

(** ** Answer synthesizer (retrieveInfo.js, [getEnhancedAnswer]) *)

(** An entry of the [sources] array. *)
Record Source := {
  source_sourceNumber : nat;
  source_filename : json;
  source_similarity : float8;
  source_similarityPercent : jsstring;
  source_contentPreview : jsstring;
  source_metadata : metadata }.

(** The [context] object; the canned answer carries [retrievedCount] only. *)
Record AnswerContext := {
  context_retrievedCount : nat;
  context_model : option jsstring;
  context_tokensUsed : option Z }.

Record EnhancedAnswer := {
  answer_answer : option jsstring;
  answer_sources : option (list Source);
  answer_context : option AnswerContext;
  answer_error : option jsstring }.

(** The answer returned when retrieval gives nothing to work from. *)
Definition could_not_find : EnhancedAnswer :=
  {| answer_answer :=
       Some (js "I couldn't find any relevant information in the knowledge base to answer your question. Please try rephrasing your question or ensure the relevant data has been ingested.");
     answer_sources := Some [];
     answer_context :=
       Some {| context_retrievedCount := 0;
               context_model := None;
               context_tokensUsed := None |};
     answer_error := None |}.

(** [item.metadata?.source_filename || "Unknown"] *)
Definition source_filename_of (item : SearchRow) : json :=
  match hit_metadata item with
  | Some m =>
      match m !! js "source_filename" with
      | Some v => if truthy v then v else JStr (js "Unknown")
      | None => JStr (js "Unknown")
      end
  | None => JStr (js "Unknown")
  end.

(** [`${(item.similarity * 100).toFixed(1)}%`] *)
Definition similarityPercent (W : Services) (similarity : float8) : jsstring :=
  match similarity with
  | Finite s => toFixed1 W (s * 100) ++ js "%"
  | NaN => js "NaN%"
  end.

Definition format_source (W : Services) (index : nat) (item : SearchRow) : Source :=
  {| source_sourceNumber := index + 1;
     source_filename := source_filename_of item;
     source_similarity := hit_similarity item;
     source_similarityPercent := similarityPercent W (hit_similarity item);
     source_contentPreview :=
       take 200 (hit_content item)
       ++ (if (200 <? length (hit_content item))%nat then js "..." else []);
     source_metadata := default ∅ (hit_metadata item) |}.

Definition getEnhancedAnswer (W : Services) (question : jsstring)
    (matchCount : Z) (matchThreshold : Q) : EnhancedAnswer :=
  let result := retrieveInformation W question matchCount matchThreshold None in
  match retrieval_error result, retrieval_data result with
  | Some _, _ | None, None | None, Some [] => could_not_find
  | None, Some ((_ :: _) as data) =>
      match chat_answer W question data with
      | Throws message =>
          {| answer_answer := None; answer_sources := None;
             answer_context := None; answer_error := Some message |}
      | Returns completion =>
          match completion_content completion with
          | None | Some [] =>
              {| answer_answer := None; answer_sources := None;
                 answer_context := None;
                 answer_error := Some (js "Failed to generate answer from GPT-4o") |}
          | Some ((_ :: _) as generatedAnswer) =>
              {| answer_answer := Some generatedAnswer;
                 answer_sources := Some (imap (format_source W) data);
                 answer_context :=
                   Some {| context_retrievedCount := length data;
                           context_model := Some models_chatAdvanced;
                           context_tokensUsed :=
                             match completion_total_tokens completion with
                             | Some 0 | None => None
                             | Some tokens => Some tokens
                             end |};
                 answer_error := None |}
          end
      end
  end.

(** ** Basic answer (retrieveInfo.js, [getAnswer]) *)

(** The [context] object of [getAnswer]. *)
Record MatchContext := {
  match_similarity : float8;
  match_metadata : option metadata;
  match_source : json }.

Record DirectAnswer := {
  direct_answer : option jsstring;
  direct_context : option MatchContext;
  direct_error : option jsstring }.

(** [bestMatch.metadata?.source_filename || "unknown"] *)
Definition match_source_of (item : SearchRow) : json :=
  match hit_metadata item with
  | Some m =>
      match m !! js "source_filename" with
      | Some v => if truthy v then v else JStr (js "unknown")
      | None => JStr (js "unknown")
      end
  | None => JStr (js "unknown")
  end.

(** [getAnswer(question)]: the three best rows at threshold 0.1, the first
    of them returned as the answer. *)
Definition getAnswer (W : Services) (question : jsstring) : DirectAnswer :=
  let result := retrieveInformation W question 3 (1 # 10) None in
  match retrieval_error result, retrieval_data result with
  | Some error, _ =>
      {| direct_answer := None; direct_context := None; direct_error := Some error |}
  | None, None | None, Some [] =>
      {| direct_answer := None; direct_context := None;
         direct_error := Some (js "No relevant information found") |}
  | None, Some (bestMatch :: _) =>
      {| direct_answer := Some (hit_content bestMatch);
         direct_context :=
           Some {| match_similarity := hit_similarity bestMatch;
                   match_metadata := hit_metadata bestMatch;
                   match_source := match_source_of bestMatch |};
         direct_error := None |}
  end.

(** ** Log history (logger.js) *)

Definition MAX_LOGS : nat := 1000.

(** [broadcast(logEntry)], on the history it keeps: push, then drop the
    oldest entry when the history has grown past [MAX_LOGS]. (The emit to
    the sockets and the console line are outputs, not modelled.) *)
Definition broadcast {E : Type} (logHistory : list E) (logEntry : E) : list E :=
  let pushed := logHistory ++ [logEntry] in
  if (MAX_LOGS <? length pushed)%nat then drop 1 pushed else pushed.

(** [getHistory(count)]: [logHistory.slice(-count)]. *)
Definition getHistory {E : Type} (logHistory : list E) (count : Z) : list E :=
  slice logHistory (- count) (Z.of_nat (length logHistory)).

(** ** HTTP handlers (controllers/ingestController.js, queryController.js) *)

(** The JSON body of a response: [{ success: true, ... }] with the
    handler's fields, or [{ success: false, message, error }]. *)
Inductive Body (A : Type) : Type :=
| Succeeded (payload : A)
| Failed (message : jsstring) (error : option jsstring).
Arguments Succeeded {A} payload.
Arguments Failed {A} message error.

Record Response (A : Type) := {
  response_status : nat;
  response_body : Body A }.
Arguments response_status {A} r.
Arguments response_body {A} r.




Record FileInfo := {
  info_filename : jsstring;
  info_characterCount : nat;
  info_wordCount : nat }.

(** [handleListFiles]: the files with their sizes; the word count splits
    on whitespace without dropping empty tokens. *)
Definition handleListFiles (W : Services) : Response (nat * list FileInfo) :=
  match readInfoFiles W with
  | Returns files =>
      let fileList :=
        List.map (fun file =>
                    {| info_filename := file_filename file;
                       info_characterCount := length (file_content file);
                       info_wordCount := length (split_ws (file_content file)) |})
          files in
      {| response_status := 200;
         response_body := Succeeded (length files, fileList) |}
  | Throws message =>
      {| response_status := 500;
         response_body := Failed (js "Failed to list files") (Some message) |}
  end.

(** The test [!question || typeof question !== 'string' ||
    question.trim() === ''] on a field of the request body, [None] when
    absent: the string when it passes. *)
Definition required_text (field : option json) : option jsstring :=
  match field with
  | Some (JStr s) => match trim s with [] => None | _ :: _ => Some s end
  | _ => None
  end.

Record AnswerPayload := {
  answered_question : jsstring;
  answered_answer : option jsstring;
  answered_context : option MatchContext }.

(** [handleGetAnswer] *)
Definition handleGetAnswer (W : Services) (question : option json)
    : Response AnswerPayload :=
  match required_text question with
  | None =>
      {| response_status := 400;
         response_body :=
           Failed (js "Question is required and must be a non-empty string")
             (Some (js "INVALID_QUESTION")) |}
  | Some question =>
      let result := getAnswer W (trim question) in
      match direct_error result with
      | Some error =>
          {| response_status := 404;
             response_body := Failed (js "No relevant information found") (Some error) |}
      | None =>
          {| response_status := 200;
             response_body :=
               Succeeded {| answered_question := trim question;
                            answered_answer := direct_answer result;
                            answered_context := direct_context result |} |}
      end
  end.

Record EnhancedPayload := {
  enhanced_question : jsstring;
  enhanced_answer : option jsstring;
  enhanced_sources : option (list Source);
  enhanced_context : option AnswerContext }.

(** [handleEnhancedAnswer]: [matchCount] and [matchThreshold] are the
    numbers of the request body, [None] when absent. *)
Definition handleEnhancedAnswer (W : Services) (question : option json)
    (matchCount : option Z) (matchThreshold : option Q) : Response EnhancedPayload :=
  match required_text question with
  | None =>
      {| response_status := 400;
         response_body :=
           Failed (js "Question is required and must be a non-empty string")
             (Some (js "INVALID_QUESTION")) |}
  | Some question =>
      let result :=
        getEnhancedAnswer W (trim question) (default 5 matchCount)
          (default (1 # 10)%Q matchThreshold) in
      match answer_error result with
      | Some error =>
          {| response_status := 500;
             response_body :=
               Failed (js "Failed to generate enhanced answer") (Some error) |}
      | None =>
          {| response_status := 200;
             response_body :=
               Succeeded {| enhanced_question := trim question;
                            enhanced_answer := answer_answer result;
                            enhanced_sources := answer_sources result;
                            enhanced_context := answer_context result |} |}
      end
  end.

(** ** Auxiliary notions for the further properties *)

(** The row an accepted [insert] adds for a buffer entry. *)
Definition inserted_row (id : Z) (result : EmbeddedResult) : DbRow :=
  {| row_id := id;
     row_filename := res_filename result;
     row_content := res_content result;
     row_metadata := Some (res_metadata result);
     row_embedding := Some (res_embedding result);
     row_created_at := res_createdAt result |}.

(** The insert of this entry is accepted: it neither throws nor answers
    with an error. *)
Definition accepted (W : Services) (result : EmbeddedResult) : bool :=
  match db_insert W result with
  | Returns None => true
  | Returns (Some _) | Throws _ => false
  end.

(** The fields [ingestAndEmbed] adds to the metadata of a chunk. *)
Definition chunk_keys : gset jsstring :=
  {[ js "chunk_index"; js "chunk_number"; js "total_chunks";
     js "chunk_size_chars"; js "chunk_size_words" ]}.

(** The fields [extractMetadataWithAI] adds to what the model extracted. *)
Definition provenance_keys : gset jsstring :=
  {[ js "source_filename"; js "file_type"; js "extracted_at"; js "extraction_model" ]}.

(** The same services with another answer to [insert]. *)
Definition with_db_insert (W : Services)
    (insert : EmbeddedResult -> outcome (option jsstring)) : Services :=
  {| fs_readdir := fs_readdir W;
     fs_stat_isFile := fs_stat_isFile W;
     fs_readFile := fs_readFile W;
     path_extname := path_extname W;
     chat_extract := chat_extract W;
     JSON_parse := JSON_parse W;
     not_a_function := not_a_function W;
     cannot_convert := cannot_convert W;
     embeddings_create := embeddings_create W;
     chat_answer := chat_answer W;
     db_delete := db_delete W;
     db_insert := insert;
     db_rpc_match_information := db_rpc_match_information W;
     now_iso := now_iso W;
     elapsed_seconds := elapsed_seconds W;
     toFixed1 := toFixed1 W |}.

(** The rows the WHERE clause of [match_information] keeps, each with its
    distance, and the result row made of a keyed row. *)
Definition keyed_rows (pg : Postgres) (table : list DbRow) (query_embedding : vector)
    (match_threshold : Q) (filter : option metadata) : list (float8 * DbRow) :=
  omap (fun row => match distance pg query_embedding row with
                   | Some d => Some (d, row)
                   | None => None
                   end)
    (List.filter (where_clause pg query_embedding match_threshold filter) table).

Definition hit_of (pg : Postgres) (dr : float8 * DbRow) : SearchRow :=
  {| hit_id := row_id (snd dr);
     hit_content := row_content (snd dr);
     hit_metadata := row_metadata (snd dr);
     hit_similarity := similarity_of pg (fst dr) |}.

(** ** The properties under test, as the specification words them *)

(** Rejoining with de-overlap: the words of the first chunk, then the words
    of every later chunk without its first [k]. *)
Definition deoverlap (k : nat) (chunks : list jsstring) : list jsstring :=
  match chunks with
  | [] => []
  | c :: rest => words c ++ concat (List.map (fun ch => drop k (words ch)) rest)
  end.

(** Two consecutive chunks share exactly [k] words: the last [k] words of
    the first are the first [k] words of the second. *)
Definition shares_exactly (k : nat) (a b : list jsstring) : Prop :=
  (k <= length a)%nat /\ (k <= length b)%nat /\ drop (length a - k) a = take k b.

(** The overlap property as the specification states it: every consecutive
    pair shares exactly [overlap] words, the pair ending in the final chunk
    excepted. *)
Definition overlap_as_specified (overlap : Z) (chunks : list jsstring) : Prop :=
  forall (i : nat) (a b : jsstring),
    chunks !! i = Some a -> chunks !! S i = Some b ->
    (S (S i) < length chunks)%nat ->
    shares_exactly (Z.to_nat overlap) (words a) (words b).

(** The chunk count as the specification states it. *)
Definition count_as_specified (text : jsstring) (chunkSize overlap : Z)
    (chunks : list jsstring) : Prop :=
  let n := Z.of_nat (length (words text)) in
  (chunkSize < n -> overlap < chunkSize ->
   Z.of_nat (length chunks) = ceil_div (n - chunkSize) (chunkSize - overlap) + 1)
  /\ (n <= chunkSize -> chunks = [trim text]).

(** The round trip as the specification states it, for whatever overlap:
    the chunks rejoined after dropping the first [overlap] words of every
    chunk but the first are the words of the text. *)
Definition roundtrip_as_specified (text : jsstring) (overlap : Z)
    (chunks : list jsstring) : Prop :=
  deoverlap (Z.to_nat overlap) chunks = words text.

(** Comparison of similarities as numbers: NaN is neither above a
    threshold nor comparable to a number. *)
Definition above (threshold : Q) (similarity : float8) : Prop :=
  match similarity with
  | Finite s => (threshold < s)%Q
  | NaN => False
  end.

Definition not_below (a b : float8) : Prop :=
  match a, b with
  | Finite x, Finite y => (y <= x)%Q
  | _, _ => False
  end.

(** The result of a search as the specification states it: every
    similarity strictly greater than the threshold, the rows sorted
    descending by similarity, at most [match_count] of them. *)
Definition result_as_specified (match_threshold : Q) (match_count : Z)
    (rows : list SearchRow) : Prop :=
  Forall (fun r => above match_threshold (hit_similarity r)) rows
  /\ StronglySorted (fun a b => not_below (hit_similarity a) (hit_similarity b)) rows
  /\ Z.of_nat (length rows) <= match_count.

(** The order the rows of a search do come in: numeric similarities first,
    descending, then the NaN ones. *)
Definition numbers_descending_then_NaN (a b : float8) : Prop :=
  match a, b with
  | Finite x, Finite y => (y <= x)%Q
  | NaN, Finite _ => False
  | _, NaN => True
  end.

(** Rounding keeps the order: of two distances the smaller gives the
    similarity that is not smaller, as [float8] subtraction does. *)
Definition rounding_monotone (pg : Postgres) : Prop :=
  forall a b : Q, (a <= b)%Q -> (one_minus pg b <= one_minus pg a)%Q.

(** The metadata of the extraction failure path as the specification
    states it: the four provenance fields and [extraction_error]. *)
Definition failure_metadata_as_specified (message : jsstring) (m : metadata) : Prop :=
  dom m = ({[ js "source_filename"; js "file_type"; js "extracted_at";
              js "extraction_model"; js "extraction_error" ]} : gset jsstring)
  /\ m !! js "extraction_error" = Some (JStr message).

(** Retrieval fails with an error: the embedding call throws, or the
    search call throws or answers with an error. *)
Definition retrieval_fails (W : Services) (question : jsstring) (matchCount : Z)
    (matchThreshold : Q) (message : jsstring) : Prop :=
  embeddings_create W question = Throws message
  \/ exists queryEmbedding,
       embeddings_create W question = Returns queryEmbedding
       /\ let rpcParams := {| rpc_query_embedding := queryEmbedding;
                              rpc_match_count := matchCount;
                              rpc_match_threshold := matchThreshold;
                              rpc_filter := None |} in
          db_rpc_match_information W rpcParams = Throws message
          \/ exists reply,
               db_rpc_match_information W rpcParams = Returns reply
               /\ reply_error reply = Some message.




(** ** A small deployment for the examples *)

Fixpoint dot (a b : vector) : Q :=
  match a, b with
  | x :: a', y :: b' => (x * y + dot a' b')%Q
  | _, _ => 0%Q
  end.

(** Equality of scalar JSON values. *)
Definition scalar_eqb (a b : json) : bool :=
  match a, b with
  | JNull, JNull => true
  | JBool x, JBool y => Bool.eqb x y
  | JNum x, JNum y => Qeq_bool x y
  | JStr x, JStr y => bool_decide (x = y)
  | _, _ => false
  end.

(** Cosine distance on unit vectors and the zero vector, exact
    subtraction, and containment of scalar fields. *)
Definition sample_pg : Postgres :=
  {| cosine_distance := fun a b =>
       if Qeq_bool (dot a a) 0 || Qeq_bool (dot b b) 0 then NaN
       else Finite (1 - dot a b)%Q;
     one_minus := fun d => (1 - d)%Q;
     jsonb_contains := fun m f =>
       map_fold (fun k v acc =>
         acc && match m !! k with Some u => scalar_eqb u v | None => false end)
         true f |}.

Definition sample_row (id : Z) (content name : string) (embedding : vector) : DbRow :=
  {| row_id := id;
     row_filename := js "notes.txt";
     row_content := js content;
     row_metadata := Some {[ js "name" := JStr (js name) ]};
     row_embedding := Some embedding;
     row_created_at := js "2025-01-01T00:00:00.000Z" |}.

Definition sample_table : list DbRow :=
  [ sample_row 1 "Ada proves theorems" "Ada" [0; 1]%Q;
    sample_row 2 "Bob writes parsers" "Bob" [3 # 5; 4 # 5]%Q;
    sample_row 3 "Ada reviews proofs" "Ada" [1; 0]%Q ].

(** The sample table and a fourth row whose embedding is the zero vector. *)
Definition sample_table_zero : list DbRow :=
  sample_table ++ [ sample_row 4 "Zed left no trace" "Zed" [0; 0]%Q ].

(** The sample table and a fourth row whose name cannot be printed. *)
Definition sample_table_unprintable : list DbRow :=
  sample_table
  ++ [ {| row_id := 4;
          row_filename := js "notes.txt";
          row_content := js "Eve hides her name";
          row_metadata := Some {[ js "name" := JObj [(js "toString", JNum 1)] ]};
          row_embedding := Some [1; 0]%Q;
          row_created_at := js "2025-01-01T00:00:00.000Z" |} ].

(** A directory with one file and one sub-directory; the extraction
    call, the embedding call and the delete call answer as given. *)
Definition sample_world (extract : outcome jsstring)
    (embed : jsstring -> outcome vector) (delete_reply : outcome (option jsstring))
    : Services :=
  {| fs_readdir := Returns [js "notes.txt"; js "drafts"];
     fs_stat_isFile := fun name => Returns (bool_decide (name = js "notes.txt"));
     fs_readFile := fun _ => Returns (js " Ada proves  theorems ");
     path_extname := fun _ => js ".txt";
     chat_extract := fun _ => extract;
     JSON_parse := fun _ => Returns (JObj [(js "name", JStr (js "Ada"))]);
     not_a_function := fun method => js "metadata.skills." ++ method ++ js " is not a function";
     cannot_convert := js "Cannot convert object to primitive value";
     embeddings_create := embed;
     chat_answer := fun _ _ =>
       Returns {| completion_content := Some (js "Ada proves theorems [Source 1]");
                  completion_total_tokens := Some 42 |};
     db_delete := delete_reply;
     db_insert := fun _ => Returns None;
     db_rpc_match_information := rpc_via_sql sample_pg sample_table;
     now_iso := js "2025-01-01T00:00:00.000Z";
     elapsed_seconds := js "0.1";
     toFixed1 := fun _ => js "60.0" |}.

(** The text "w1 w2 ... wn". *)
Definition numbered (from n : nat) : list jsstring :=
  List.map (fun i => js "w" ++ index_key i) (seq from n).

Definition numbered_text (n : nat) : jsstring := join (js " ") (numbered 1 n).

Definition sample_state : State :=
  {| embeddedResults := []; embeddedinfo := sample_table; next_id := 4 |}.

(** * Properties *)

(** ** Arrays: [slice] on the index ranges the chunker uses *)

Lemma slice_window {A : Type} (l : list A) (start size : Z) :
  0 <= start -> 0 <= size ->
  slice l start (Z.min (start + size) (Z.of_nat (length l)))
  = firstn (Z.to_nat size) (skipn (Z.to_nat start) l).
Proof.
  intros Hs Hc. unfold slice.
  assert (Hk : (start <? 0) = false) by (apply Z.ltb_ge; lia).
  assert (He : (Z.min (start + size) (Z.of_nat (length l)) <? 0) = false)
    by (apply Z.ltb_ge; lia).
  rewrite Hk, He.
  destruct (Z_lt_le_dec start (Z.of_nat (length l))) as [Hlt | Hge].
  - rewrite (Z.min_l start) by lia.
    destruct (Z_le_gt_dec (start + size) (Z.of_nat (length l))) as [Hin | Hout].
    + f_equal. lia.
    + rewrite !firstn_all2; trivial; rewrite length_skipn; lia.
  - rewrite !(skipn_all2 l) by lia. now rewrite !firstn_nil.
Qed.

Lemma ceil_div_pos (a b : Z) : 0 < a -> 0 < b -> ceil_div a b = 1 + ceil_div (a - b) b.
Proof.
  intros Ha Hb. unfold ceil_div.
  replace (a + b - 1) with (1 * b + (a - b + b - 1)) by lia.
  rewrite Z.div_add_l by lia. reflexivity.
Qed.

Lemma ceil_div_nonpos (a b : Z) : a <= 0 -> 0 < b -> ceil_div a b <= 0.
Proof.
  intros Ha Hb. unfold ceil_div.
  assert ((a + b - 1) / b < 1); [apply Z.div_lt_upper_bound|]; lia.
Qed.

Lemma ceil_div_nonneg (a b : Z) : 0 < a -> 0 < b -> 0 < ceil_div a b.
Proof.
  intros Ha Hb. rewrite ceil_div_pos by lia.
  assert (0 <= ceil_div (a - b) b); [|lia].
  unfold ceil_div. apply Z.div_pos; lia.
Qed.

(** ** The chunker's loop in closed form *)

Lemma windows_from_S ws C O start n :
  windows_from ws C O start (S n)
  = window ws C start :: windows_from ws C O (start + (C - O)) n.
Proof.
  unfold windows_from. rewrite <- cons_seq, <- seq_shift, List.map_cons, List.map_map.
  f_equal; [f_equal; lia|].
  apply List.map_ext. intros j. f_equal. lia.
Qed.

Lemma length_windows_from ws C O start n :
  length (windows_from ws C O start n) = n.
Proof. unfold windows_from. now rewrite length_map, length_seq. Qed.

(** With a positive step the guard never fires and the loop runs once per
    step that starts before the last word. *)
Lemma chunkLoop_forward ws C O :
  O < C ->
  forall fuel start chunks,
    (Z.to_nat (ceil_div (Z.of_nat (length ws) - start) (C - O)) < fuel)%nat ->
    chunkLoop fuel ws C O start chunks
    = Some (chunks ++ windows_from ws C O start
                        (Z.to_nat (ceil_div (Z.of_nat (length ws) - start) (C - O)))).
Proof.
  intros HOC. induction fuel as [|fuel IH]; intros start chunks Hfuel; [lia|].
  cbn [chunkLoop].
  destruct (Z.ltb_spec start (Z.of_nat (length ws))) as [Hlt | Hge].
  - assert (Hguard : (O >=? C) = false) by (rewrite Z.geb_leb; apply Z.leb_gt; lia).
    rewrite Hguard, andb_false_r.
    rewrite (ceil_div_pos (Z.of_nat (length ws) - start)) in * by lia.
    assert (Hnn : 0 <= ceil_div (Z.of_nat (length ws) - start - (C - O)) (C - O))
      by (unfold ceil_div; apply Z.div_pos; lia).
    rewrite Z2Nat.inj_add in * by lia.
    change (Z.to_nat 1) with 1%nat in *. cbn [Nat.add] in *.
    rewrite windows_from_S.
    replace (Z.of_nat (length ws) - start - (C - O))
      with (Z.of_nat (length ws) - (start + (C - O))) in * by lia.
    rewrite IH by lia.
    now rewrite <- app_assoc.
  - assert (Hz : Z.to_nat (ceil_div (Z.of_nat (length ws) - start) (C - O)) = 0%nat).
    { pose proof (ceil_div_nonpos (Z.of_nat (length ws) - start) (C - O)). lia. }
    rewrite Hz. cbn. now rewrite app_nil_r.
Qed.

(** With a step that is zero or negative the guard fires at the end of the
    first round. *)
Lemma chunkLoop_stuck ws C O fuel :
  C <= O -> ws <> [] ->
  chunkLoop (S fuel) ws C O 0 [] = Some [window ws C 0].
Proof.
  intros HOC Hne. cbn [chunkLoop].
  destruct (Z.ltb_spec 0 (Z.of_nat (length ws))) as [Hlt | Hge].
  - cbn [app length].
    assert (H1 : (0 + (C - O) <=? Z.of_nat 1 - 1) = true) by (apply Z.leb_le; lia).
    assert (H2 : (O >=? C) = true) by (rewrite Z.geb_leb; apply Z.leb_le; lia).
    now rewrite H1, H2.
  - destruct ws; [congruence | cbn in Hge; lia].
Qed.

Lemma ceil_div_le_self (n b : Z) : 0 <= n -> 0 < b -> ceil_div n b <= n.
Proof.
  intros Hn Hb. unfold ceil_div.
  assert ((n + b - 1) / b < n + 1); [apply Z.div_lt_upper_bound; nia | lia].
Qed.

Lemma chunkText_fuel_closed (text : jsstring) (C O : Z) (fuel : nat) :
  (length (words text) < fuel)%nat ->
  chunkText_fuel fuel text C O = Some (chunk_list text C O).
Proof.
  intros Hfuel. unfold chunkText_fuel, chunk_list. cbv zeta.
  destruct (Z.leb_spec (Z.of_nat (length (words text))) C) as [Hshort | Hlong]; [reflexivity|].
  destruct (Z.leb_spec C O) as [Hstuck | Hfwd].
  - destruct (words text) as [|w ws] eqn:Hws.
    + destruct fuel; [lia | reflexivity].
    + destruct fuel; [lia|]. now apply chunkLoop_stuck.
  - pose proof (ceil_div_le_self (Z.of_nat (length (words text))) (C - O)) as Hle.
    rewrite (chunkLoop_forward (words text) C O Hfwd fuel 0 []).
    + now rewrite Z.sub_0_r.
    + rewrite Z.sub_0_r. lia.
Qed.

Lemma chunkText_fuel_enough (text : jsstring) (C O : Z) (fuel : nat) :
  (length (words text) < fuel)%nat ->
  chunkText_fuel fuel text C O = Some (chunkText text C O).
Proof.
  intros Hfuel. unfold chunkText.
  rewrite !chunkText_fuel_closed by lia. reflexivity.
Qed.

Lemma chunkText_closed (text : jsstring) (C O : Z) :
  chunkText text C O = chunk_list text C O.
Proof. unfold chunkText. now rewrite chunkText_fuel_closed by lia. Qed.

(** ** Tokenizing: [words] against [join] and [trim] *)

Lemma split_go_no_ws (s : jsstring) :
  forall b cur, no_ws cur -> Forall no_ws (split_go b cur s).
Proof.
  induction s as [|c s IH]; intros b cur Hcur; cbn [split_go].
  - constructor; [|constructor]. now apply Forall_rev.
  - destruct (is_ws c) eqn:Hc.
    + destruct b; [now apply IH|].
      constructor; [now apply Forall_rev | apply IH; constructor].
    + apply IH. now constructor.
Qed.

Lemma words_are_words (text : jsstring) : Forall is_word (words text).
Proof.
  unfold words, split_ws. apply List.Forall_forall. intros w Hin.
  apply List.filter_In in Hin as [Hin Hlen].
  assert (Hall : Forall no_ws (split_go false [] text))
    by (apply split_go_no_ws; constructor).
  rewrite List.Forall_forall in Hall. split; [|now apply Hall].
  destruct w; [discriminate | congruence].
Qed.

Lemma split_go_word (w : jsstring) :
  no_ws w -> w <> [] ->
  forall b cur t, split_go b cur (w ++ t) = split_go false (rev w ++ cur) t.
Proof.
  induction w as [|c w IH]; intros Hw Hne b cur t; [congruence|].
  inversion Hw as [|? ? Hc Hw']; subst. cbn [app split_go]. rewrite Hc.
  destruct w as [|c' w'].
  - reflexivity.
  - rewrite IH by (trivial; congruence).
    cbn [rev]. now rewrite <- !app_assoc.
Qed.

Lemma join_cons2 (sep w w2 : jsstring) (l : list jsstring) :
  join sep (w :: w2 :: l) = w ++ sep ++ join sep (w2 :: l).
Proof. reflexivity. Qed.

Lemma words_join_go (l : list jsstring) :
  Forall is_word l ->
  forall b, List.filter (fun word => (0 <? length word)%nat)
              (split_go b [] (join (js " ") l)) = l.
Proof.
  induction l as [|w l IH]; intros Hl b; [reflexivity|].
  inversion Hl as [|? ? [Hne Hw] Hl']; subst.
  assert (Hlen : (0 <? length w)%nat = true) by (destruct w; [congruence | reflexivity]).
  destruct l as [|w2 l2].
  - cbn [join]. rewrite <- (app_nil_r w) at 1.
    rewrite split_go_word by trivial. cbn [split_go List.filter].
    rewrite app_nil_r, rev_involutive, Hlen. reflexivity.
  - rewrite join_cons2, split_go_word by trivial.
    change (js " ") with [32%N] at 1.
    cbn [app split_go is_ws List.filter].
    rewrite app_nil_r, rev_involutive, Hlen. f_equal. now apply IH.
Qed.

(** Tokenizing a chunk gives back the words it was joined from. *)
Lemma words_join (l : list jsstring) :
  Forall is_word l -> words (join (js " ") l) = l.
Proof. intros Hl. apply (words_join_go l Hl false). Qed.

Lemma filter_split_go_inrun (s : jsstring) (b : bool) :
  List.filter (fun word => (0 <? length word)%nat) (split_go b [] s)
  = List.filter (fun word => (0 <? length word)%nat) (split_go true [] s).
Proof.
  destruct s as [|c s]; [reflexivity|]. cbn [split_go].
  destruct (is_ws c); [|reflexivity]. now destruct b.
Qed.

Lemma words_trimStart (s : jsstring) : words (trimStart s) = words s.
Proof.
  unfold words, split_ws. induction s as [|c s IH]; [reflexivity|].
  cbn [trimStart split_go]. destruct (is_ws c) eqn:Hc.
  - rewrite IH. cbn [List.filter rev length Nat.ltb Nat.leb].
    apply filter_split_go_inrun.
  - cbn [split_go]. now rewrite Hc.
Qed.

Lemma filter_split_go_snoc_ws (s : jsstring) (c : N) :
  is_ws c = true ->
  forall b cur,
    List.filter (fun word => (0 <? length word)%nat) (split_go b cur (s ++ [c]))
    = List.filter (fun word => (0 <? length word)%nat) (split_go b cur s).
Proof.
  intros Hc. induction s as [|d s IH]; intros b cur.
  - cbn [app split_go]. rewrite Hc. destruct b; [reflexivity|].
    cbn [List.filter rev length Nat.ltb Nat.leb].
    destruct (0 <? length (rev cur))%nat; reflexivity.
  - cbn [app split_go]. destruct (is_ws d); [destruct b|]; cbn [List.filter];
      rewrite ?IH; reflexivity.
Qed.

Lemma trimStart_split (s : jsstring) :
  exists run, Forall (fun c => is_ws c = true) run /\ s = run ++ trimStart s.
Proof.
  induction s as [|c s (run & Hrun & Heq)].
  - exists []. split; [constructor | reflexivity].
  - cbn [trimStart]. destruct (is_ws c) eqn:Hc.
    + exists (c :: run). split; [now constructor | cbn; congruence].
    + exists []. split; [constructor | reflexivity].
Qed.

Lemma words_app_ws_run (body run : jsstring) :
  Forall (fun c => is_ws c = true) run -> words (body ++ run) = words body.
Proof.
  induction run as [|c run' IH] using rev_ind; intros Hrun.
  - now rewrite app_nil_r.
  - apply Forall_app in Hrun as [Hrun' Hc]. inversion Hc; subst.
    rewrite app_assoc. unfold words, split_ws in *.
    rewrite filter_split_go_snoc_ws by trivial. now apply IH.
Qed.

Lemma words_trimEnd (s : jsstring) : words (trimEnd s) = words s.
Proof.
  unfold trimEnd. destruct (trimStart_split (rev s)) as (run & Hrun & Heq).
  assert (Hs : s = rev (trimStart (rev s)) ++ rev run).
  { rewrite <- rev_app_distr, <- Heq. now rewrite rev_involutive. }
  rewrite Hs at 2. symmetry. apply words_app_ws_run. now apply Forall_rev.
Qed.

Lemma words_trim (s : jsstring) : words (trim s) = words s.
Proof. unfold trim. now rewrite words_trimEnd, words_trimStart. Qed.

(** ** Chunks as word windows *)

Lemma words_window (ws : list jsstring) (C start : Z) :
  Forall is_word ws -> 0 <= start -> 0 <= C ->
  words (window ws C start) = take (Z.to_nat C) (drop (Z.to_nat start) ws).
Proof.
  intros Hws Hs Hc. unfold window.
  rewrite slice_window by lia.
  apply words_join. now apply Forall_take, Forall_drop.
Qed.

Lemma windows_from_lookup (ws : list jsstring) (C O : Z) (n : nat) :
  forall (i : nat) (start : Z),
    (i < n)%nat ->
    windows_from ws C O start n !! i
    = Some (window ws C (start + Z.of_nat i * (C - O))).
Proof.
  induction n as [|n IH]; intros i start Hi; [lia|].
  rewrite windows_from_S. destruct i as [|i].
  - cbn. do 2 f_equal. lia.
  - cbn [lookup list_lookup]. rewrite IH by lia. do 2 f_equal. lia.
Qed.

(** A window exists only for a start index before the last word. *)
Lemma ceil_div_index (n s : Z) (j : nat) :
  0 < s -> (j < Z.to_nat (ceil_div n s))%nat -> Z.of_nat j * s < n.
Proof.
  intros Hs Hj. unfold ceil_div in Hj.
  assert (Hq : Z.of_nat j + 1 <= (n + s - 1) / s) by lia.
  pose proof (Z.mul_div_le (n + s - 1) s Hs). nia.
Qed.

Lemma chunk_list_long_lookup (text : jsstring) (C O : Z) (i : nat) (a : jsstring) :
  0 <= O < C -> C < Z.of_nat (length (words text)) ->
  chunk_list text C O !! i = Some a ->
  Z.of_nat i * (C - O) < Z.of_nat (length (words text))
  /\ (i < length (chunk_list text C O))%nat
  /\ words a = take (Z.to_nat C)
                 (drop (i * Z.to_nat (C - O)) (words text)).
Proof.
  intros HO Hlong Ha.
  pose proof (lookup_lt_Some _ _ _ Ha) as Hi.
  unfold chunk_list in *. cbv zeta in *.
  destruct (Z.leb_spec (Z.of_nat (length (words text))) C) as [Hshort|_]; [lia|].
  destruct (Z.leb_spec C O) as [Hstuck|_]; [lia|].
  rewrite length_windows_from in Hi.
  rewrite windows_from_lookup in Ha by trivial. injection Ha as <-.
  split; [apply ceil_div_index; lia|]. split; [now rewrite length_windows_from|].
  rewrite words_window by (try apply words_are_words; nia).
  do 2 f_equal. rewrite Z.add_0_l, Z2Nat.inj_mul, Nat2Z.id by lia. reflexivity.
Qed.

Lemma ceil_div_covers (n s : Z) : 0 < s -> n <= ceil_div n s * s.
Proof.
  intros Hs. unfold ceil_div.
  pose proof (Z.mul_succ_div_gt (n + s - 1) s Hs). nia.
Qed.

(** The de-overlapped tails of [m] successive windows are the next
    [m * (chunkSize - overlap)] words after the first window's end. *)
Lemma concat_deoverlap_windows (ws : list jsstring) (C O : Z) (m : nat) :
  Forall is_word ws -> 0 <= O < C ->
  forall start : Z, 0 <= start ->
    concat (List.map (fun ch => drop (Z.to_nat O) (words ch))
              (windows_from ws C O start m))
    = take (m * Z.to_nat (C - O)) (drop (Z.to_nat start + Z.to_nat O) ws).
Proof.
  intros Hws HO. induction m as [|m IH]; intros start Hstart; [reflexivity|].
  rewrite windows_from_S. cbn [List.map concat].
  rewrite IH, words_window by (trivial; lia).
  rewrite skipn_firstn_comm, drop_drop.
  replace (Z.to_nat (start + (C - O)) + Z.to_nat O)%nat
    with ((Z.to_nat start + Z.to_nat O) + Z.to_nat (C - O))%nat by lia.
  rewrite <- (drop_drop ws (Z.to_nat (C - O)) (Z.to_nat start + Z.to_nat O)).
  replace (Z.to_nat C - Z.to_nat O)%nat with (Z.to_nat (C - O)) by lia.
  rewrite take_take_drop. f_equal.
Qed.

(** ** Chunker: the claims *)

(** C1, as stated, fails: on the three words "a b c" with chunkSize 2 and
    overlap 1 the loop starts a window at every index below the word count
    and returns three chunks, where the stated formula
    ceil((N-C)/(C-O)) + 1 gives two. *)
Lemma chunkText_count_as_specified_fails :
  exists chunks,
    chunkText_fuel 4 (js "a b c") 2 1 = Some chunks
    /\ chunks = [js "a b"; js "b c"; js "c"]
    /\ ~ count_as_specified (js "a b c") 2 1 chunks.
Proof.
  exists [js "a b"; js "b c"; js "c"]. split; [reflexivity|]. split; [reflexivity|].
  intros [Hcount _]. vm_compute in Hcount.
  specialize (Hcount eq_refl eq_refl). discriminate.
Qed.

(** C1 (amended). For every text with N words, chunkSize C and overlap O,
    [chunkText] returns: when N > C and O < C, exactly ceil(N/(C-O)) chunks
    (one window per start index 0, C-O, 2(C-O), ... below N); when N <= C,
    whatever the overlap, exactly one chunk, the trimmed text. *)
Theorem chunkText_chunk_count (text : jsstring) (C O : Z) (fuel : nat) :
  (length (words text) < fuel)%nat ->
  exists chunks,
    chunkText_fuel fuel text C O = Some chunks
    /\ (C < Z.of_nat (length (words text)) -> O < C ->
        Z.of_nat (length chunks) = ceil_div (Z.of_nat (length (words text))) (C - O))
    /\ (Z.of_nat (length (words text)) <= C -> chunks = [trim text]).
Proof.
  intros Hfuel. exists (chunk_list text C O).
  split; [now apply chunkText_fuel_closed|].
  unfold chunk_list. cbv zeta.
  destruct (Z.leb_spec (Z.of_nat (length (words text))) C) as [Hshort | Hlong].
  - split; [lia | reflexivity].
  - split; [intros _ HO | lia].
    destruct (Z.leb_spec C O) as [Hstuck | _]; [lia|].
    rewrite length_windows_from.
    destruct (Z_le_gt_dec (Z.of_nat (length (words text))) 0) as [Hz | Hpos].
    + pose proof (ceil_div_nonpos (Z.of_nat (length (words text))) (C - O)).
      assert (0 <= ceil_div (Z.of_nat (length (words text))) (C - O))
        by (unfold ceil_div; apply Z.div_pos; lia).
      lia.
    + pose proof (ceil_div_nonneg (Z.of_nat (length (words text))) (C - O)). lia.
Qed.

(** The count on "a b c" with chunkSize 2 and overlap 1: three chunks. *)
Lemma chunkText_chunk_count_witness :
  exists chunks,
    chunkText_fuel 4 (js "a b c") 2 1 = Some chunks
    /\ Z.of_nat (length chunks) = 3.
Proof.
  destruct (chunkText_chunk_count (js "a b c") 2 1 4) as (chunks & Hrun & Hcount & _).
  - vm_compute. lia.
  - exists chunks. split; [exact Hrun|].
    rewrite Hcount; [reflexivity | vm_compute; reflexivity | lia].
Defined.

(** The scenario of the specification: 310 words at the default chunkSize
    300 and overlap 50 give two chunks, words 1-300 and words 251-310. *)
Example chunkText_scenario_310 :
  List.map words (chunkText (numbered_text 310) 300 50)
  = [numbered 1 300; numbered 251 60].
Proof. vm_compute. reflexivity. Qed.

(** At the defaults too the count departs from ceil((N-C)/(C-O)) + 1: 501
    words give three chunks, the last one the single word 501. *)
Example chunkText_defaults_501 :
  List.map words (chunkText (numbered_text 501) 300 50)
  = [numbered 1 300; numbered 251 251; numbered 501 1]
  /\ ceil_div (501 - 300) (300 - 50) + 1 = 2.
Proof. split; vm_compute; reflexivity. Qed.

(** C6. [chunkText] terminates on every text, chunkSize and overlap: fuel
    beyond the word count always yields the same chunk list. When the text
    has more words than chunkSize and overlap >= chunkSize (a step that is
    zero or negative), the guard fires at the end of the first round and
    the list holds the first window alone. *)
Theorem chunkText_terminates (text : jsstring) (C O : Z) :
  exists chunks,
    (forall fuel, (length (words text) < fuel)%nat ->
                  chunkText_fuel fuel text C O = Some chunks)
    /\ (C < Z.of_nat (length (words text)) -> C <= O ->
        (length chunks <= 1)%nat
        /\ (words text <> [] -> chunks = [window (words text) C 0])).
Proof.
  exists (chunk_list text C O). split.
  - intros fuel Hfuel. now apply chunkText_fuel_closed.
  - intros Hlong Hstuck. unfold chunk_list. cbv zeta.
    destruct (Z.leb_spec (Z.of_nat (length (words text))) C); [lia|].
    destruct (Z.leb_spec C O); [|lia].
    destruct (words text); cbn; split; (lia || congruence).
Qed.

(** With chunkSize 2 and overlap 2 the loop stops after the chunk "a b". *)
Lemma chunkText_terminates_witness :
  exists chunks,
    chunkText_fuel 4 (js "a b c") 2 2 = Some chunks /\ chunks = [js "a b"].
Proof.
  destruct (chunkText_terminates (js "a b c") 2 2) as (chunks & Hrun & Hguard).
  exists chunks. split.
  - apply Hrun. vm_compute. lia.
  - destruct Hguard as [_ Hone]; [vm_compute; reflexivity | lia |].
    rewrite Hone; [reflexivity | vm_compute; discriminate].
Defined.

(** C7, as stated, fails: with chunkSize 4 and overlap 3 the five words
    "a b c d e" give the chunks "a b c d", "b c d e", "c d e", "d e", "e";
    the chunk "d e" is not the final one, yet it has only two words, so it
    cannot share three words with "c d e". *)
Lemma chunkText_overlap_as_specified_fails :
  exists chunks,
    chunkText_fuel 6 (js "a b c d e") 4 3 = Some chunks
    /\ chunks = [js "a b c d"; js "b c d e"; js "c d e"; js "d e"; js "e"]
    /\ ~ overlap_as_specified 3 chunks.
Proof.
  eexists. split; [reflexivity|]. split; [reflexivity|].
  intros Hall.
  destruct (Hall 2%nat (js "c d e") (js "d e") eq_refl eq_refl) as (_ & Hlen & _).
  - cbn. lia.
  - vm_compute in Hlen. lia.
Qed.

(** C7 (amended). For 0 <= O < C, every chunk that has a successor is
    C - O words followed by the first O words of the next chunk, or by the
    whole next chunk when that one has fewer than O words. Hence two
    consecutive chunks share exactly O words whenever the second has at
    least O words, and that is so for every second chunk other than the
    final one when 2*O <= C. (When 2*O > C several trailing chunks, not
    only the final one, can hold fewer than O words.) *)
Theorem chunkText_consecutive_overlap (text : jsstring) (C O : Z) (fuel : nat) :
  0 <= O < C -> (length (words text) < fuel)%nat ->
  exists chunks,
    chunkText_fuel fuel text C O = Some chunks
    /\ forall (i : nat) (a b : jsstring),
        chunks !! i = Some a -> chunks !! S i = Some b ->
        drop (Z.to_nat (C - O)) (words a) = take (Z.to_nat O) (words b)
        /\ ((Z.to_nat O <= length (words b))%nat ->
            shares_exactly (Z.to_nat O) (words a) (words b))
        /\ (2 * O <= C -> (S (S i) < length chunks)%nat ->
            (Z.to_nat O <= length (words b))%nat).
Proof.
  intros HO Hfuel. exists (chunk_list text C O).
  split; [now apply chunkText_fuel_closed|].
  intros i a b Ha Hb.
  destruct (Z_le_gt_dec (Z.of_nat (length (words text))) C) as [Hshort | Hlong].
  { unfold chunk_list in Hb. cbv zeta in Hb.
    destruct (Z.leb_spec (Z.of_nat (length (words text))) C); [discriminate | lia]. }
  assert (Hlong' : C < Z.of_nat (length (words text))) by lia.
  destruct (chunk_list_long_lookup text C O i a HO Hlong' Ha) as (_ & _ & Hwa).
  destruct (chunk_list_long_lookup text C O (S i) b HO Hlong' Hb) as (Hib & _ & Hwb).
  set (st := Z.to_nat (C - O)) in *. set (o := Z.to_nat O) in *.
  set (c := Z.to_nat C) in *. set (ws := words text) in *.
  assert (Hc : c = (st + o)%nat) by lia.
  cbn [Nat.mul] in Hwb. set (p := (i * st)%nat) in *.
  assert (Hshared : drop st (words a) = take o (words b)).
  { rewrite Hwa, Hwb, skipn_firstn_comm, drop_drop, take_take.
    f_equal; [lia | f_equal; lia]. }
  split; [exact Hshared|]. split.
  - intros Hlen. unfold shares_exactly.
    rewrite Hwb, length_take, length_drop in Hlen.
    assert (Hla : length (words a) = c)
      by (rewrite Hwa, length_take, length_drop; lia).
    split; [lia|]. split; [rewrite Hwb, length_take, length_drop; lia|].
    rewrite Hla. replace (c - o)%nat with st by lia. exact Hshared.
  - intros Hhalf Hnext.
    destruct (lookup_lt_is_Some_2 (chunk_list text C O) (S (S i)) Hnext) as [d Hd].
    destruct (chunk_list_long_lookup text C O (S (S i)) d HO Hlong' Hd) as (Hid & _).
    rewrite Hwb, length_take, length_drop.
    assert (Hst : Z.of_nat st = C - O) by lia. rewrite <- Hst in Hid.
    assert (Hp : Z.of_nat p = Z.of_nat i * Z.of_nat st) by (unfold p; lia).
    fold ws in Hid. nia.
Qed.

(** "a b c d e" with chunkSize 3 and overlap 1: "a b c" and "c d e" share
    the word "c". *)
Lemma chunkText_consecutive_overlap_witness :
  exists chunks,
    chunkText_fuel 6 (js "a b c d e") 3 1 = Some chunks
    /\ chunks !! 0%nat = Some (js "a b c") /\ chunks !! 1%nat = Some (js "c d e")
    /\ shares_exactly 1 (words (js "a b c")) (words (js "c d e")).
Proof.
  destruct (chunkText_consecutive_overlap (js "a b c d e") 3 1 6)
    as (chunks & Hrun & Hpairs); [lia | vm_compute; lia |].
  exists chunks.
  assert (Hc : chunks = [js "a b c"; js "c d e"; js "e"]).
  { assert (Hs : Some chunks = Some [js "a b c"; js "c d e"; js "e"])
      by (rewrite <- Hrun; reflexivity).
    now injection Hs. }
  split; [exact Hrun|]. split; [now rewrite Hc|]. split; [now rewrite Hc|].
  destruct (Hpairs 0%nat (js "a b c") (js "c d e")) as (_ & Hshare & _);
    [now rewrite Hc | now rewrite Hc |].
  apply Hshare. vm_compute. lia.
Defined.

(** C8, as stated, fails: the claim covers every overlap below the chunk
    size, a negative one too. With chunkSize 2 and overlap -1 the windows
    start three words apart: "a b c d e" gives "a b" and "d e", and the
    word "c" is in no chunk, so no way of rejoining the chunks gives the
    words of the text back. *)
Lemma chunkText_roundtrip_as_specified_fails :
  exists chunks,
    chunkText_fuel 6 (js "a b c d e") 2 (-1) = Some chunks
    /\ chunks = [js "a b"; js "d e"]
    /\ ~ roundtrip_as_specified (js "a b c d e") (-1) chunks
    /\ forall k : nat, deoverlap k chunks <> words (js "a b c d e").
Proof.
  exists [js "a b"; js "d e"]. split; [reflexivity|]. split; [reflexivity|].
  split; [intros H; vm_compute in H; discriminate|].
  intros [|[|[|k]]] H; vm_compute in H; discriminate.
Qed.

(** C8 (amended). For 0 <= O < C, dropping the first O words of every
    chunk after the first and concatenating the chunks of
    [chunkText text C O] in order gives back the word sequence of the
    text. *)
Theorem chunkText_deoverlap_roundtrip (text : jsstring) (C O : Z) (fuel : nat) :
  0 <= O < C -> (length (words text) < fuel)%nat ->
  exists chunks,
    chunkText_fuel fuel text C O = Some chunks
    /\ deoverlap (Z.to_nat O) chunks = words text.
Proof.
  intros HO Hfuel. exists (chunk_list text C O).
  split; [now apply chunkText_fuel_closed|].
  unfold chunk_list. cbv zeta.
  destruct (Z.leb_spec (Z.of_nat (length (words text))) C) as [Hshort | Hlong].
  - cbn. now rewrite app_nil_r, words_trim.
  - destruct (Z.leb_spec C O) as [Hstuck | _]; [lia|].
    pose proof (ceil_div_nonneg (Z.of_nat (length (words text))) (C - O)) as Hpos.
    pose proof (ceil_div_covers (Z.of_nat (length (words text))) (C - O)) as Hcov.
    destruct (Z.to_nat (ceil_div (Z.of_nat (length (words text))) (C - O)))
      as [|m] eqn:Hcnt; [lia|].
    rewrite windows_from_S. cbn [deoverlap].
    rewrite concat_deoverlap_windows, words_window
      by (try apply words_are_words; lia).
    change (Z.to_nat 0) with 0%nat. cbn [drop].
    replace (Z.to_nat (0 + (C - O)) + Z.to_nat O)%nat with (Z.to_nat C) by lia.
    rewrite take_take_drop. apply take_ge. nia.
Qed.

(** The five chunks of "a b c d e" at chunkSize 4 and overlap 3 rejoin to
    the five words. *)
Lemma chunkText_deoverlap_roundtrip_witness :
  exists chunks,
    chunkText_fuel 6 (js "a b c d e") 4 3 = Some chunks
    /\ deoverlap 3 chunks = [js "a"; js "b"; js "c"; js "d"; js "e"].
Proof.
  destruct (chunkText_deoverlap_roundtrip (js "a b c d e") 4 3 6)
    as (chunks & Hrun & Hround); [lia | vm_compute; lia |].
  exists chunks. split; [exact Hrun|].
  etransitivity; [exact Hround | reflexivity].
Defined.

(** ** Vector search: the result of [match_information] *)

Lemma Forall_insert_by_distance (P : float8 * DbRow -> Prop) x l :
  P x -> Forall P l -> Forall P (insert_by_distance x l).
Proof.
  intros Hx Hl. induction Hl as [|y l' Hy Hl' IH]; cbn [insert_by_distance].
  - now repeat constructor.
  - destruct (float8_le (fst x) (fst y)); now repeat constructor.
Qed.

Lemma Forall_order_by_distance (P : float8 * DbRow -> Prop) l :
  Forall P l -> Forall P (order_by_distance l).
Proof.
  intros Hl. induction Hl as [|x l' Hx Hl' IH]; [constructor|].
  cbn. now apply Forall_insert_by_distance.
Qed.

Lemma float8_le_total (a b : float8) : float8_le a b = false -> float8_le b a = true.
Proof.
  destruct a as [x|], b as [y|]; cbn; try (reflexivity || discriminate).
  intros Hxy. apply Qle_bool_iff. apply Qlt_le_weak, Qnot_le_lt.
  intros Hle. apply Qle_bool_iff in Hle. congruence.
Qed.

Lemma float8_le_trans (a b c : float8) :
  float8_le a b = true -> float8_le b c = true -> float8_le a c = true.
Proof.
  destruct a as [x|], b as [y|], c as [z|]; cbn; try (reflexivity || discriminate).
  rewrite !Qle_bool_iff. intros; lra.
Qed.

Lemma insert_by_distance_sorted x l :
  StronglySorted (fun a b => float8_le (fst a) (fst b) = true) l ->
  StronglySorted (fun a b => float8_le (fst a) (fst b) = true) (insert_by_distance x l).
Proof.
  intros Hl. induction Hl as [|y l' Hl' IH Hy]; cbn [insert_by_distance].
  - repeat constructor.
  - destruct (float8_le (fst x) (fst y)) eqn:Hxy.
    + constructor; [now constructor|].
      constructor; [exact Hxy|].
      eapply Forall_impl; [exact Hy|]. intros z Hz. cbn in Hz.
      now apply (float8_le_trans _ (fst y)).
    + constructor; [exact IH|].
      apply Forall_insert_by_distance; [now apply float8_le_total | exact Hy].
Qed.

Lemma order_by_distance_sorted l :
  StronglySorted (fun a b => float8_le (fst a) (fst b) = true) (order_by_distance l).
Proof.
  induction l as [|x l IH]; [constructor|].
  cbn. now apply insert_by_distance_sorted.
Qed.

Lemma StronglySorted_take_prefix {A : Type} (R : A -> A -> Prop) (n : nat) (l : list A) :
  StronglySorted R l -> StronglySorted R (take n l).
Proof.
  intros Hl. revert n. induction Hl as [|x l Hl IH Hx]; intros [|n]; cbn;
    try constructor; [apply IH | now apply Forall_take].
Qed.

Lemma StronglySorted_map_rel {A B : Type} (R : A -> A -> Prop) (R' : B -> B -> Prop)
    (f : A -> B) (l : list A) :
  (forall a b, R a b -> R' (f a) (f b)) ->
  StronglySorted R l -> StronglySorted R' (List.map f l).
Proof.
  intros Hf Hl. induction Hl as [|x l Hl IH Hx]; cbn; constructor; [exact IH|].
  apply List.Forall_map. eapply Forall_impl; [exact Hx | auto].
Qed.

(** A sorted list stays sorted under a relation that the first implies
    among the elements of the list. *)
Lemma StronglySorted_among {A : Type} (P : A -> Prop) (R R' : A -> A -> Prop)
    (l : list A) :
  (forall a b, P a -> P b -> R a b -> R' a b) ->
  Forall P l -> StronglySorted R l -> StronglySorted R' l.
Proof.
  intros HR HP Hl. induction Hl as [|x l Hl IH Hx]; [constructor|].
  apply Forall_cons in HP as [HPx HPl]. constructor; [now apply IH|].
  rewrite Forall_forall in Hx, HPl. apply Forall_forall. intros y Hy.
  apply HR; auto.
Qed.

Lemma match_information_closed (pg : Postgres) (table : list DbRow)
    (q : vector) (mc : Z) (mt : Q) (filter : option metadata) :
  match_information pg table q mc mt filter
  = if mc <? 0 then None
    else Some (List.map (hit_of pg)
                 (take (Z.to_nat mc)
                    (order_by_distance (keyed_rows pg table q mt filter)))).
Proof. reflexivity. Qed.

Lemma elem_of_keyed_rows (pg : Postgres) (table : list DbRow) (q : vector) (mt : Q)
    (filter : option metadata) (d : float8) (row : DbRow) :
  (d, row) ∈ keyed_rows pg table q mt filter
  <-> row ∈ table /\ where_clause pg q mt filter row = true
      /\ distance pg q row = Some d.
Proof.
  unfold keyed_rows. rewrite list_elem_of_omap. split.
  - intros (row' & Hin & Hkey).
    apply list_elem_of_In, List.filter_In in Hin as [Hin Hwhere].
    destruct (distance pg q row') as [d'|] eqn:Hd; [|discriminate].
    injection Hkey as <- <-. now rewrite list_elem_of_In.
  - intros (Hin & Hwhere & Hd). exists row. split.
    + apply list_elem_of_In, List.filter_In. now rewrite <- list_elem_of_In.
    + now rewrite Hd.
Qed.

(** What the WHERE clause says of a row it keeps. *)
Lemma where_clause_spec (pg : Postgres) (q : vector) (mt : Q)
    (filter : option metadata) (row : DbRow) :
  where_clause pg q mt filter row = true
  <-> (exists embedding,
         row_embedding row = Some embedding
         /\ float8_gt (similarity_of pg (cosine_distance pg embedding q)) mt = true)
      /\ (forall f, filter = Some f ->
            exists m, row_metadata row = Some m /\ jsonb_contains pg m f = true).
Proof.
  unfold where_clause, distance. rewrite andb_true_iff. split.
  - intros [Hfilter Hsim]. split.
    + destruct (row_embedding row) as [e|]; [|discriminate]. now exists e.
    + intros f ->. destruct (row_metadata row) as [m|]; [eauto | discriminate].
  - intros [(e & He & Hgt) Hfilter]. rewrite He. split; [|exact Hgt].
    destruct filter as [f|]; [|reflexivity].
    destruct (Hfilter f eq_refl) as (m & -> & Hm). exact Hm.
Qed.

Lemma Forall_hits (pg : Postgres) (table : list DbRow) (q : vector) (mt : Q)
    (filter : option metadata) (n : nat) (P : SearchRow -> Prop) :
  (forall d row, row ∈ table -> where_clause pg q mt filter row = true ->
                 distance pg q row = Some d -> P (hit_of pg (d, row))) ->
  Forall P (List.map (hit_of pg)
              (take n (order_by_distance (keyed_rows pg table q mt filter)))).
Proof.
  intros HP. apply List.Forall_map, Forall_take, Forall_order_by_distance, Forall_forall.
  intros [d row] Hin. apply elem_of_keyed_rows in Hin as (Hin & Hwhere & Hd). eauto.
Qed.

(** [x > t] in the order of PostgreSQL: a number above [t], or NaN. *)
Lemma float8_gt_spec (x : float8) (t : Q) :
  float8_gt x t = true <-> match x with Finite s => (t < s)%Q | NaN => True end.
Proof.
  destruct x as [s|]; cbn; [|tauto].
  rewrite negb_true_iff. split.
  - intros Hle. apply Qnot_le_lt. intros H. apply Qle_bool_iff in H. congruence.
  - intros Hlt. destruct (Qle_bool s t) eqn:Hle; [|reflexivity].
    apply Qle_bool_iff in Hle. lra.
Qed.

(** Every row returned passes the threshold test and the filter. *)
Lemma hits_clear_threshold_and_filter (pg : Postgres) (table : list DbRow) (q : vector)
    (mt : Q) (filter : option metadata) (n : nat) :
  Forall (fun hit =>
            float8_gt (hit_similarity hit) mt = true
            /\ forall f, filter = Some f ->
                 exists m, hit_metadata hit = Some m /\ jsonb_contains pg m f = true)
    (List.map (hit_of pg) (take n (order_by_distance (keyed_rows pg table q mt filter)))).
Proof.
  apply Forall_hits. intros d row _ Hwhere Hd.
  apply where_clause_spec in Hwhere as [(e & He & Hgt) Hfilter].
  unfold distance in Hd. rewrite He in Hd. injection Hd as <-. cbn. now split.
Qed.

(** Ascending distances give similarities in the order numbers
    descending, then NaN. *)
Lemma similarity_order (pg : Postgres) (a b : float8) :
  rounding_monotone pg ->
  float8_le a b = true ->
  numbers_descending_then_NaN (similarity_of pg a) (similarity_of pg b).
Proof.
  intros Hmono. destruct a as [x|], b as [y|]; cbn; try (trivial || discriminate).
  intros Hle. apply Hmono. now apply Qle_bool_iff.
Qed.

(** C2, as stated, fails: a stored embedding that is the zero vector is at
    cosine distance NaN from every query, so its similarity is NaN; the
    test [NaN > match_threshold] is true in PostgreSQL, and the row is
    returned, last. On the sample table with such a fourth row, searched
    from [1; 0] at threshold 0.5, the result is rows 3, 2 and 4: the
    similarity of row 4 is not a number greater than 0.5, and the list is
    not sorted descending by similarity. *)
Lemma match_information_result_as_specified_fails :
  exists rows hit,
    match_information sample_pg sample_table_zero [1; 0]%Q 5 (1 # 2) None = Some rows
    /\ List.map hit_id rows = [3; 2; 4]
    /\ rows !! 2%nat = Some hit /\ hit_similarity hit = NaN
    /\ ~ above (1 # 2) (hit_similarity hit)
    /\ ~ StronglySorted (fun a b => not_below (hit_similarity a) (hit_similarity b)) rows
    /\ ~ result_as_specified (1 # 2) 5 rows.
Proof.
  destruct (match_information sample_pg sample_table_zero [1; 0]%Q 5 (1 # 2) None)
    as [rows|] eqn:Hrun; [|vm_compute in Hrun; discriminate].
  assert (Hids : List.map hit_id rows = [3; 2; 4]).
  { assert (Hs : option_map (List.map hit_id) (Some rows) = Some [3; 2; 4])
      by (rewrite <- Hrun; vm_compute; reflexivity).
    cbn [option_map] in Hs. now injection Hs. }
  assert (Hsims : List.map (fun r => match hit_similarity r with
                                     | Finite _ => false
                                     | NaN => true
                                     end) rows = [false; false; true]).
  { assert (Hs : option_map (List.map (fun r => match hit_similarity r with
                                                | Finite _ => false
                                                | NaN => true
                                                end)) (Some rows)
                 = Some [false; false; true])
      by (rewrite <- Hrun; vm_compute; reflexivity).
    cbn [option_map] in Hs. now injection Hs. }
  destruct rows as [|r1 [|r2 [|r3 [|r4 rest]]]]; try discriminate Hids.
  exists [r1; r2; r3], r3. split; [reflexivity|]. split; [exact Hids|].
  split; [reflexivity|].
  assert (Hnan : hit_similarity r3 = NaN).
  { cbn in Hsims. injection Hsims as _ _ H3. now destruct (hit_similarity r3). }
  split; [exact Hnan|]. split; [|split].
  - rewrite Hnan. cbn. tauto.
  - intros Hsorted. inversion Hsorted as [|? ? _ Hall]; subst.
    rewrite !Forall_cons in Hall. destruct Hall as (_ & H3 & _).
    rewrite Hnan in H3. unfold not_below in H3. now destruct (hit_similarity r1).
  - intros (Habove & _). rewrite !Forall_cons in Habove.
    destruct Habove as (_ & _ & H3 & _). rewrite Hnan in H3. exact H3.
Qed.

(** C2 (amended). For every table, query embedding, threshold, filter and
    every match_count that PostgreSQL accepts as a LIMIT (not negative),
    [match_information] returns a row list whose length is at most
    match_count; every similarity in it is a number strictly greater than
    the threshold, or NaN; and (rounding [1 - d] keeping the order) the
    rows with a numeric similarity come first, sorted descending by
    similarity, the NaN ones last. When no stored embedding is at distance
    NaN from the query embedding (neither is the zero vector), the three
    properties hold as the claim states them: every similarity is strictly
    greater than the threshold, the list is sorted descending by
    similarity, and its length is at most match_count. *)
Theorem match_information_result (pg : Postgres) (table : list DbRow)
    (query_embedding : vector) (match_count : Z) (match_threshold : Q)
    (filter : option metadata) :
  0 <= match_count ->
  rounding_monotone pg ->
  exists rows,
    match_information pg table query_embedding match_count match_threshold filter
    = Some rows
    /\ Z.of_nat (length rows) <= match_count
    /\ Forall (fun r => match hit_similarity r with
                        | Finite s => (match_threshold < s)%Q
                        | NaN => True
                        end) rows
    /\ StronglySorted
         (fun a b => numbers_descending_then_NaN (hit_similarity a) (hit_similarity b))
         rows
    /\ ((forall row embedding,
            row ∈ table -> row_embedding row = Some embedding ->
            cosine_distance pg embedding query_embedding <> NaN) ->
        result_as_specified match_threshold match_count rows).
Proof.
  intros Hcount Hmono. rewrite match_information_closed.
  destruct (Z.ltb_spec match_count 0) as [Hneg|_]; [lia|].
  eexists. split; [reflexivity|].
  assert (Hlen : Z.of_nat (length (List.map (hit_of pg)
                   (take (Z.to_nat match_count)
                      (order_by_distance
                         (keyed_rows pg table query_embedding match_threshold filter)))))
                 <= match_count)
    by (rewrite length_map, length_take; lia).
  assert (Habove : Forall (fun r => match hit_similarity r with
                                    | Finite s => (match_threshold < s)%Q
                                    | NaN => True
                                    end)
                     (List.map (hit_of pg)
                        (take (Z.to_nat match_count)
                           (order_by_distance
                              (keyed_rows pg table query_embedding match_threshold
                                 filter))))).
  { eapply Forall_impl; [apply hits_clear_threshold_and_filter|].
    intros hit [Hgt _]. now apply float8_gt_spec. }
  assert (Hsorted : StronglySorted
                      (fun a b => numbers_descending_then_NaN
                                    (hit_similarity a) (hit_similarity b))
                      (List.map (hit_of pg)
                         (take (Z.to_nat match_count)
                            (order_by_distance
                               (keyed_rows pg table query_embedding match_threshold
                                  filter))))).
  { apply (StronglySorted_map_rel (fun a b => float8_le (fst a) (fst b) = true)).
    - intros a b Hab. cbn. now apply similarity_order.
    - apply StronglySorted_take_prefix, order_by_distance_sorted. }
  split; [exact Hlen|]. split; [exact Habove|]. split; [exact Hsorted|].
  intros Hnum.
  assert (Hfinite : Forall (fun r => hit_similarity r <> NaN)
                      (List.map (hit_of pg)
                         (take (Z.to_nat match_count)
                            (order_by_distance
                               (keyed_rows pg table query_embedding match_threshold
                                  filter))))).
  { apply Forall_hits. intros d row Hin _ Hd. unfold distance in Hd.
    destruct (row_embedding row) as [e|] eqn:He; [|discriminate].
    injection Hd as <-. cbn. specialize (Hnum row e Hin He).
    now destruct (cosine_distance pg e query_embedding). }
  split; [|split; [|exact Hlen]].
  - pose proof (conj Habove Hfinite) as Hboth. rewrite <- Forall_and in Hboth.
    eapply Forall_impl; [exact Hboth|].
    intros r [Hr Hn]. unfold above. now destruct (hit_similarity r).
  - eapply (StronglySorted_among (fun r => hit_similarity r <> NaN));
      [|exact Hfinite | exact Hsorted].
    intros a b Ha Hb. unfold numbers_descending_then_NaN, not_below.
    now destruct (hit_similarity a), (hit_similarity b).
Qed.

(** The sample table searched from [1; 0] with LIMIT 2 and threshold 0.1:
    rows 3 and 2, in that order, as the claim states the result. *)
Lemma match_information_result_witness :
  exists rows,
    match_information sample_pg sample_table [1; 0]%Q 2 (1 # 10) None = Some rows
    /\ List.map hit_id rows = [3; 2]
    /\ result_as_specified (1 # 10) 2 rows.
Proof.
  destruct (match_information_result sample_pg sample_table [1; 0]%Q 2 (1 # 10) None)
    as (rows & Hrun & _ & _ & _ & Hspec);
    [lia | intros a b Hab; cbn; lra |].
  exists rows. split; [exact Hrun|]. split.
  - assert (Hs : option_map (List.map hit_id) (Some rows) = Some [3; 2])
      by (rewrite <- Hrun; reflexivity).
    cbn [option_map] in Hs. now injection Hs.
  - apply Hspec. intros row e Hin He.
    unfold sample_table in Hin. rewrite !elem_of_cons in Hin.
    destruct Hin as [-> | [-> | [-> | Hin]]];
      [| | | now apply elem_of_nil in Hin];
      injection He as <-; vm_compute; discriminate.
Defined.

(** ** Metadata extraction: the failure path *)

Lemma basic_metadata_dom (W : Services) (filename message : jsstring) :
  dom (basic_metadata W filename message)
  = ({[ js "source_filename"; js "file_type"; js "extracted_at";
        js "extraction_error" ]} : gset jsstring).
Proof.
  unfold basic_metadata. rewrite !dom_insert_L, dom_empty_L. set_solver.
Qed.

Lemma extractMetadataWithAI_throws (W : Services) (content filename message : jsstring) :
  chat_extract W content = Throws message
  \/ (exists text, chat_extract W content = Returns text
                   /\ JSON_parse W text = Throws message) ->
  extractMetadataWithAI W content filename = basic_metadata W filename message.
Proof.
  unfold extractMetadataWithAI.
  intros [Hcall | (text & Hcall & Hparse)]; rewrite Hcall; [|rewrite Hparse]; reflexivity.
Qed.

Lemma embedChunks_all (W : Services) (file : File) (m : metadata) (total : nat)
    (chunks : list jsstring) (embeddings : list vector) :
  Forall2 (fun chunk e => embeddings_create W chunk = Returns e) chunks embeddings ->
  forall (i : nat) (results : list EmbeddedResult),
    embedChunks W file m total i chunks results
    = (Returns tt,
       results ++ imap (fun j ce => chunkResult W file m total (i + j) ce.1 ce.2)
                    (zip chunks embeddings)).
Proof.
  induction 1 as [|chunk e chunks embeddings He _ IH]; intros i results.
  - cbn. now rewrite app_nil_r.
  - cbn [embedChunks]. unfold generateEmbedding. rewrite He, IH.
    cbn [zip zip_with imap]. rewrite <- app_assoc. cbn [app].
    rewrite Nat.add_0_r. do 3 f_equal.
    apply imap_ext. intros j ce _. cbn. f_equal. lia.
Qed.

(** C4, as stated, fails: when the extraction call throws, the returned
    object has no [extraction_model] field, so it does not hold the four
    provenance fields the claim lists. *)
Lemma extractMetadataWithAI_failure_as_specified_fails :
  let W := sample_world (Throws (js "429 rate limit")) (fun _ => Returns [1; 0]%Q)
             (Returns None) in
  chat_extract W (js "Ada proves theorems") = Throws (js "429 rate limit")
  /\ extractMetadataWithAI W (js "Ada proves theorems") (js "notes.txt")
       !! js "extraction_model" = None
  /\ ~ failure_metadata_as_specified (js "429 rate limit")
         (extractMetadataWithAI W (js "Ada proves theorems") (js "notes.txt")).
Proof.
  cbv zeta. split; [reflexivity|]. split; [reflexivity|].
  intros [Hdom _].
  assert (Hin : js "extraction_model"
                ∈ dom (extractMetadataWithAI
                         (sample_world (Throws (js "429 rate limit"))
                            (fun _ => Returns [1; 0]%Q) (Returns None))
                         (js "Ada proves theorems") (js "notes.txt")))
    by (rewrite Hdom; set_solver).
  apply elem_of_dom in Hin as [v Hv]. discriminate Hv.
Qed.

(** C4 (amended). For every content and filename, if the extraction call
    throws (or its output does not parse), [extractMetadataWithAI] returns
    an object with exactly the fields source_filename, file_type,
    extracted_at and extraction_error, the last carrying the failure
    message: no extraction_model and no content field. Ingestion of the
    document continues: when every chunk embeds, the file contributes one
    buffer entry per chunk, each built on that metadata. *)
Theorem extractMetadataWithAI_failure (W : Services)
    (content filename message : jsstring) :
  chat_extract W content = Throws message
  \/ (exists text, chat_extract W content = Returns text
                   /\ JSON_parse W text = Throws message) ->
  let m := extractMetadataWithAI W content filename in
  let file := {| file_filename := filename; file_content := content |} in
  dom m = ({[ js "source_filename"; js "file_type"; js "extracted_at";
              js "extraction_error" ]} : gset jsstring)
  /\ m !! js "source_filename" = Some (JStr filename)
  /\ m !! js "file_type" = Some (JStr (file_type_of W filename))
  /\ m !! js "extracted_at" = Some (JStr (now_iso W))
  /\ m !! js "extraction_error" = Some (JStr message)
  /\ forall (results : list EmbeddedResult) (embeddings : list vector),
       Forall2 (fun chunk e => embeddings_create W chunk = Returns e)
         (chunkText content 300 50) embeddings ->
       ingestFile W file results
       = results ++ imap (fun i ce => chunkResult W file m
                                        (length (chunkText content 300 50)) i ce.1 ce.2)
                      (zip (chunkText content 300 50) embeddings).
Proof.
  intros Hfail. cbv zeta.
  rewrite (extractMetadataWithAI_throws W content filename message Hfail).
  split; [apply basic_metadata_dom|].
  repeat (split; [reflexivity|]).
  intros results embeddings Hemb. unfold ingestFile. cbn [file_content file_filename].
  rewrite (extractMetadataWithAI_throws W content filename message Hfail).
  rewrite (embedChunks_all W _ _ _ _ embeddings Hemb). reflexivity.
Qed.

(** A rate-limited extraction call: the error is recorded and the file is
    still chunked and buffered. *)
Lemma extractMetadataWithAI_failure_witness :
  let W := sample_world (Throws (js "429 rate limit")) (fun _ => Returns [1; 0]%Q)
             (Returns None) in
  let file := {| file_filename := js "notes.txt";
                 file_content := js " Ada proves  theorems " |} in
  extractMetadataWithAI W (file_content file) (file_filename file)
    !! js "extraction_error" = Some (JStr (js "429 rate limit"))
  /\ List.map res_content (ingestFile W file []) = [js "Ada proves  theorems"].
Proof.
  cbv zeta.
  destruct (extractMetadataWithAI_failure
              (sample_world (Throws (js "429 rate limit")) (fun _ => Returns [1; 0]%Q)
                 (Returns None))
              (js " Ada proves  theorems ") (js "notes.txt") (js "429 rate limit"))
    as (_ & _ & _ & _ & Herr & Hcont); [left; reflexivity|].
  split; [exact Herr|].
  cbn [file_content file_filename].
  rewrite (Hcont [] [[1; 0]%Q]); [reflexivity|].
  repeat constructor.
Defined.

(** ** Ingestion: a failed clear *)

(** A clear that fails leaves the state as it was. *)
Lemma clearDatabase_failure_keeps_state (W : Services) (st : State) :
  clear_success (fst (clearDatabase W st)) = false ->
  snd (clearDatabase W st) = st.
Proof.
  unfold clearDatabase. destruct (db_delete W) as [[message|]|message]; cbn;
    (reflexivity || discriminate).
Qed.

(** [runIngestion] does not look at the result of [clearDatabase]: after a
    failed clear the run is the run without clearing. *)
Lemma runIngestion_ignores_clear_failure (W : Services) (st : State) :
  clear_success
    (fst (clearDatabase W {| embeddedResults := [];
                             embeddedinfo := embeddedinfo st;
                             next_id := next_id st |})) = false ->
  runIngestion W true st = runIngestion W false st.
Proof.
  intros Hfail. unfold runIngestion. cbv zeta.
  now rewrite (clearDatabase_failure_keeps_state W _ Hfail).
Qed.

(** C3, on the code: with clearFirst = true and a delete that answers with
    an error, [clearDatabase] reports the failure, and [runIngestion] goes
    on all the same: the file is read, chunked, embedded and inserted next
    to the rows that were to be deleted, and the run reports success. *)
Theorem runIngestion_clear_failure_not_fatal :
  let W := sample_world (Returns (js "{}")) (fun _ => Returns [1; 0]%Q)
             (Returns (Some (js "permission denied"))) in
  let run := runIngestion W true sample_state in
  fst (clearDatabase W sample_state)
  = {| clear_success := false; clear_error := Some (js "permission denied") |}
  /\ ingestion_success (fst run) = true
  /\ ingestion_filesProcessed (fst run) = Some 1%nat
  /\ ingestion_chunksCreated (fst run) = Some 1%nat
  /\ List.map row_id (embeddedinfo (snd run)) = [1; 2; 3; 4].
Proof. cbv zeta. repeat split; vm_compute; reflexivity. Qed.

(** ** Retriever: the filtering wrappers *)




(** ** Answer synthesizer: nothing retrieved *)

(** C5. For every question for which retrieval returns zero results,
    [getEnhancedAnswer] returns the canned could-not-find answer, with
    sources [], context.retrievedCount 0 and error null. *)
Theorem getEnhancedAnswer_no_match (W : Services) (question : jsstring)
    (matchCount : Z) (matchThreshold : Q) :
  retrieval_error (retrieveInformation W question matchCount matchThreshold None) = None ->
  retrieval_data (retrieveInformation W question matchCount matchThreshold None) = Some [] ->
  let r := getEnhancedAnswer W question matchCount matchThreshold in
  r = could_not_find
  /\ answer_sources r = Some []
  /\ answer_context r = Some {| context_retrievedCount := 0;
                                context_model := None;
                                context_tokensUsed := None |}
  /\ answer_error r = None.
Proof.
  intros Herr Hdata. cbv zeta.
  assert (Hr : getEnhancedAnswer W question matchCount matchThreshold = could_not_find)
    by (unfold getEnhancedAnswer; cbv zeta; now rewrite Herr, Hdata).
  rewrite Hr. repeat split.
Qed.

(** Threshold 0.9 against a table whose best similarity is 0.6. *)
Lemma getEnhancedAnswer_no_match_witness :
  let W := sample_world (Returns (js "{}")) (fun _ => Returns [3 # 5; -4 # 5]%Q)
             (Returns None) in
  retrieval_data (retrieveInformation W (js "Who proves theorems?") 5 (9 # 10) None)
  = Some []
  /\ getEnhancedAnswer W (js "Who proves theorems?") 5 (9 # 10) = could_not_find.
Proof.
  cbv zeta. split; [reflexivity|].
  apply (getEnhancedAnswer_no_match
           (sample_world (Returns (js "{}")) (fun _ => Returns [3 # 5; -4 # 5]%Q)
              (Returns None))
           (js "Who proves theorems?") 5 (9 # 10)); reflexivity.
Defined.

(** C10. If retrieval fails with an error (the embedding call throws, or
    the vector search throws or answers with an error), the retriever
    reports that error, and [getEnhancedAnswer] does not: it returns the
    canned could-not-find answer, with error null, sources [] and
    context.retrievedCount 0, the very answer of a search without match. *)
Theorem getEnhancedAnswer_hides_retrieval_error (W : Services) (question : jsstring)
    (matchCount : Z) (matchThreshold : Q) (message : jsstring) :
  retrieval_fails W question matchCount matchThreshold message ->
  let r := getEnhancedAnswer W question matchCount matchThreshold in
  retrieval_error (retrieveInformation W question matchCount matchThreshold None)
  = Some message
  /\ r = could_not_find
  /\ answer_error r = None
  /\ answer_sources r = Some []
  /\ answer_context r = Some {| context_retrievedCount := 0;
                                context_model := None;
                                context_tokensUsed := None |}.
Proof.
  intros Hfail. cbv zeta.
  assert (Herr : retrieval_error
                   (retrieveInformation W question matchCount matchThreshold None)
                 = Some message).
  { unfold retrieveInformation, generateQueryEmbedding.
    destruct Hfail as [Hemb | (e & Hemb & [Hrpc | (reply & Hrpc & Hreply)])];
      rewrite Hemb; [reflexivity | |]; cbv zeta in Hrpc; rewrite Hrpc;
      [reflexivity | now rewrite Hreply]. }
  assert (Hr : getEnhancedAnswer W question matchCount matchThreshold = could_not_find)
    by (unfold getEnhancedAnswer; cbv zeta; now rewrite Herr).
  rewrite Hr. repeat split. exact Herr.
Qed.

(** An embedding call that throws. *)
Lemma getEnhancedAnswer_hides_retrieval_error_witness :
  let W := sample_world (Returns (js "{}")) (fun _ => Throws (js "401 invalid api key"))
             (Returns None) in
  retrieval_error (retrieveInformation W (js "Who proves theorems?") 5 (1 # 10) None)
  = Some (js "401 invalid api key")
  /\ getEnhancedAnswer W (js "Who proves theorems?") 5 (1 # 10) = could_not_find.
Proof.
  cbv zeta.
  destruct (getEnhancedAnswer_hides_retrieval_error
              (sample_world (Returns (js "{}"))
                 (fun _ => Throws (js "401 invalid api key")) (Returns None))
              (js "Who proves theorems?") 5 (1 # 10) (js "401 invalid api key"))
    as (Herr & Hr & _); [left; reflexivity|].
  split; assumption.
Defined.

(** * Further properties of the code *)

(** ** Chunker: sizes and shape of the chunks *)

Lemma window_words (ws : list jsstring) (C start : Z) :
  Forall is_word ws ->
  words (window ws C start)
  = slice ws start (Z.min (start + C) (Z.of_nat (length ws))).
Proof.
  intros Hws. unfold window. apply words_join.
  unfold slice. now apply Forall_take, Forall_drop.
Qed.

Lemma chunk_list_long_windows (text : jsstring) (C O : Z) :
  C < Z.of_nat (length (words text)) ->
  Forall (fun chunk => exists start, chunk = window (words text) C start)
    (chunk_list text C O).
Proof.
  intros Hlong. unfold chunk_list. cbv zeta.
  destruct (Z.leb_spec (Z.of_nat (length (words text))) C) as [Hshort|_]; [lia|].
  destruct (C <=? O).
  - destruct (words text); repeat constructor. now eexists.
  - unfold windows_from. apply List.Forall_map, Forall_forall.
    intros j _. now eexists.
Qed.

Lemma chunk_list_shape (text : jsstring) (C O : Z) :
  Forall (fun chunk => chunk = trim text
                       \/ exists start, chunk = window (words text) C start)
    (chunk_list text C O).
Proof.
  destruct (Z_le_gt_dec (Z.of_nat (length (words text))) C) as [Hshort | Hlong].
  - unfold chunk_list. cbv zeta.
    destruct (Z.leb_spec (Z.of_nat (length (words text))) C); [|lia].
    repeat constructor.
  - eapply Forall_impl; [apply chunk_list_long_windows; lia|].
    intros chunk Hw. now right.
Qed.

(** X1. With 0 <= O < C and more than C words, chunk number i (from 0)
    holds min(C, N - i(C-O)) words: at least one and at most C. *)
Theorem chunkText_chunk_sizes (text : jsstring) (C O : Z) (i : nat) (chunk : jsstring) :
  0 <= O < C -> C < Z.of_nat (length (words text)) ->
  chunkText text C O !! i = Some chunk ->
  Z.of_nat (length (words chunk))
  = Z.min C (Z.of_nat (length (words text)) - Z.of_nat i * (C - O))
  /\ 1 <= Z.of_nat (length (words chunk)) <= C.
Proof.
  intros HO Hlong Hi. rewrite chunkText_closed in Hi.
  destruct (chunk_list_long_lookup text C O i chunk HO Hlong Hi) as (Hstart & _ & Hw).
  rewrite Hw, length_take, length_drop.
  assert (Hp : Z.of_nat (i * Z.to_nat (C - O)) = Z.of_nat i * (C - O))
    by (rewrite Nat2Z.inj_mul, Z2Nat.id; lia).
  lia.
Qed.

(** The last of the three chunks of "a b c d e" at chunkSize 3, overlap 1. *)
Lemma chunkText_chunk_sizes_witness :
  Z.of_nat (length (words (js "e"))) = Z.min 3 (5 - 2 * (3 - 1)).
Proof.
  destruct (chunkText_chunk_sizes (js "a b c d e") 3 1 2 (js "e")) as [Hsize _];
    [lia | vm_compute; reflexivity | reflexivity |].
  exact Hsize.
Defined.

(** X2. When the text has more words than chunkSize, every chunk is its
    own words joined by single spaces, for every chunkSize and overlap: the
    whitespace of the document (line breaks, runs of blanks) is gone from
    it. (The single chunk of a short text keeps it: only the ends are
    trimmed.) *)
Theorem chunkText_long_chunks_normalized (text : jsstring) (C O : Z) :
  C < Z.of_nat (length (words text)) ->
  Forall (fun chunk => chunk = join (js " ") (words chunk)) (chunkText text C O).
Proof.
  intros Hlong. rewrite chunkText_closed.
  eapply Forall_impl; [apply chunk_list_long_windows; lia|].
  intros chunk [start ->].
  rewrite window_words by apply words_are_words. reflexivity.
Qed.

(** A text with a line break and a double blank, cut at chunkSize 2. *)
Lemma chunkText_long_chunks_normalized_witness :
  Forall (fun chunk => chunk = join (js " ") (words chunk))
    (chunkText [97; 10; 98; 32; 32; 99]%N 2 0)
  /\ chunkText [97; 10; 98; 32; 32; 99]%N 2 0 = [js "a b"; js "c"].
Proof.
  split; [|reflexivity].
  apply chunkText_long_chunks_normalized. vm_compute. reflexivity.
Defined.

Lemma trimStart_all_ws (s : jsstring) :
  Forall (fun c => is_ws c = true) s -> trimStart s = [].
Proof.
  induction 1 as [|c s Hc _ IH]; [reflexivity|]. cbn. now rewrite Hc.
Qed.

Lemma trim_all_ws (s : jsstring) :
  Forall (fun c => is_ws c = true) s -> trim s = [].
Proof.
  intros Hs. unfold trim, trimEnd. now rewrite (trimStart_all_ws s Hs).
Qed.

Lemma words_all_ws (s : jsstring) :
  Forall (fun c => is_ws c = true) s -> words s = [].
Proof. intros Hs. exact (words_app_ws_run [] s Hs). Qed.

(** X3. A text that is empty or all whitespace is not skipped: for every
    chunkSize >= 0, [chunkText] returns one chunk, the empty string. *)
Theorem chunkText_blank_text (text : jsstring) (C O : Z) :
  Forall (fun c => is_ws c = true) text -> 0 <= C ->
  chunkText text C O = [[]].
Proof.
  intros Hws HC. rewrite chunkText_closed. unfold chunk_list. cbv zeta.
  rewrite (words_all_ws text Hws), (trim_all_ws text Hws). cbn [length].
  destruct (Z.leb_spec (Z.of_nat 0) C); [reflexivity | lia].
Qed.

(** A text of a blank, a tab and a line feed, at the default sizes. *)
Lemma chunkText_blank_text_witness : chunkText [32; 9; 10]%N 300 50 = [[]].
Proof.
  apply chunkText_blank_text; [|lia].
  repeat constructor.
Defined.

(** X4. With 0 <= chunkSize < N and overlap >= chunkSize the result is a
    single chunk made of the first chunkSize words: every later word of the
    document is dropped, without an error. *)
Theorem chunkText_stuck_keeps_first_window (text : jsstring) (C O : Z) :
  0 <= C < Z.of_nat (length (words text)) -> C <= O ->
  exists chunk,
    chunkText text C O = [chunk]
    /\ words chunk = take (Z.to_nat C) (words text)
    /\ (length (words chunk) < length (words text))%nat.
Proof.
  intros HC HO. rewrite chunkText_closed. unfold chunk_list. cbv zeta.
  destruct (Z.leb_spec (Z.of_nat (length (words text))) C); [lia|].
  destruct (Z.leb_spec C O); [|lia].
  destruct (words text) as [|w ws] eqn:Hws; [cbn in HC; lia|].
  rewrite <- Hws in *. eexists. split; [reflexivity|].
  rewrite words_window by (try apply words_are_words; lia).
  change (Z.to_nat 0) with 0%nat. cbn [drop]. split; [reflexivity|].
  rewrite length_take. lia.
Qed.

(** Four words at chunkSize 2 and overlap 5: "c" and "d" are lost. *)
Lemma chunkText_stuck_keeps_first_window_witness :
  exists chunk,
    chunkText (js "a b c d") 2 5 = [chunk] /\ words chunk = [js "a"; js "b"].
Proof.
  destruct (chunkText_stuck_keeps_first_window (js "a b c d") 2 5)
    as (chunk & Hrun & Hwords & _); [vm_compute; split; congruence | lia |].
  exists chunk. split; [exact Hrun|].
  etransitivity; [exact Hwords | reflexivity].
Defined.

(** ** Ingestion: the word count recorded with a chunk *)

Lemma split_go_not_nil (s : jsstring) (b : bool) (cur : jsstring) :
  split_go b cur s <> [].
Proof.
  revert b cur. induction s as [|c s IH]; intros b cur; cbn [split_go]; [discriminate|].
  destruct (is_ws c); [destruct b|]; (apply IH || discriminate).
Qed.

(** No token is empty when the text neither starts nor ends with
    whitespace. *)
Lemma split_go_tokens_nonempty (s : jsstring) :
  forall (b : bool) (cur : jsstring),
    (if b then s <> [] else cur <> [] \/ exists c s', s = c :: s' /\ is_ws c = false) ->
    (forall s0 c, s = s0 ++ [c] -> is_ws c = false) ->
    Forall (fun t => t <> []) (split_go b cur s).
Proof.
  induction s as [|d s IH]; intros b cur Hstart Hend; cbn [split_go].
  - destruct b; [congruence|]. destruct Hstart as [Hcur | (c & s' & Heq & _)]; [|discriminate].
    repeat constructor. intros Hrev. apply Hcur.
    now rewrite <- (rev_involutive cur), Hrev.
  - assert (Hend' : forall s0 c, s = s0 ++ [c] -> is_ws c = false).
    { intros s0 c ->. apply (Hend (d :: s0) c). reflexivity. }
    destruct (is_ws d) eqn:Hd.
    + assert (Hs : s <> []).
      { intros ->. specialize (Hend [] d eq_refl). congruence. }
      destruct b.
      * now apply IH.
      * destruct Hstart as [Hcur | (c & s' & Heq & Hc)]; [|injection Heq as <- <-; congruence].
        constructor; [|now apply IH].
        intros Hrev. apply Hcur. now rewrite <- (rev_involutive cur), Hrev.
    + apply IH; [left; discriminate | exact Hend'].
Qed.

Lemma filter_nonempty_id (l : list jsstring) :
  Forall (fun t => t <> []) l ->
  List.filter (fun word => (0 <? length word)%nat) l = l.
Proof.
  induction 1 as [|t l Ht _ IH]; [reflexivity|]. cbn [List.filter].
  destruct t as [|c t]; [congruence|].
  change (0 <? length (c :: t))%nat with true. cbv iota. now rewrite IH.
Qed.

Lemma trimStart_head (s : jsstring) (c : N) (r : jsstring) :
  trimStart s = c :: r -> is_ws c = false.
Proof.
  induction s as [|d s IH]; cbn; [discriminate|].
  destruct (is_ws d) eqn:Hd; [exact IH|]. intros [= <- <-]. exact Hd.
Qed.

Lemma trimEnd_split (u : jsstring) :
  exists run, Forall (fun c => is_ws c = true) run /\ u = trimEnd u ++ run.
Proof.
  unfold trimEnd. destruct (trimStart_split (rev u)) as (run & Hrun & Heq).
  exists (rev run). split; [now apply Forall_rev|].
  rewrite <- rev_app_distr, <- Heq. now rewrite rev_involutive.
Qed.

(** The trimmed text is empty, or starts and ends with a code unit that
    is not whitespace. *)
Lemma trim_ends (s : jsstring) :
  trim s = []
  \/ (exists c r, trim s = c :: r /\ is_ws c = false)
     /\ (forall s0 c, trim s = s0 ++ [c] -> is_ws c = false).
Proof.
  unfold trim. destruct (trimStart s) as [|d u] eqn:Hstart; [now left|].
  pose proof (trimStart_head s d u Hstart) as Hd.
  right. split.
  - destruct (trimEnd_split (d :: u)) as (run & Hrun & Heq).
    destruct (trimEnd (d :: u)) as [|c r].
    + cbn in Heq. subst run. inversion Hrun; congruence.
    + injection Heq as <- _. now exists d, r.
  - intros s0 c Heq. unfold trimEnd in Heq.
    assert (Hrev : trimStart (rev (d :: u)) = c :: rev s0).
    { rewrite <- (rev_involutive (trimStart (rev (d :: u)))), Heq, rev_app_distr.
      reflexivity. }
    exact (trimStart_head _ _ _ Hrev).
Qed.

Lemma split_join_words (l : list jsstring) :
  Forall is_word l -> l <> [] ->
  forall b, split_go b [] (join (js " ") l) = l.
Proof.
  induction l as [|w l IH]; intros Hl Hne b; [congruence|].
  inversion Hl as [|? ? [Hw Hnw] Hl']; subst.
  destruct l as [|w2 l2].
  - cbn [join]. rewrite <- (app_nil_r w) at 1.
    rewrite split_go_word by trivial. cbn [split_go].
    now rewrite app_nil_r, rev_involutive.
  - rewrite join_cons2, split_go_word by trivial.
    change (js " ") with [32%N] at 1.
    cbn [app split_go is_ws].
    rewrite app_nil_r, rev_involutive. f_equal. now apply IH.
Qed.

Lemma split_ws_count (chunk : jsstring) (text : jsstring) (C : Z) :
  chunk = trim text \/ (exists start, chunk = window (words text) C start) ->
  length (split_ws chunk) = Nat.max 1 (length (words chunk)).
Proof.
  intros [-> | [start ->]].
  - destruct (trim_ends text) as [Hnil | [(c & r & Heq & Hc) Hend]].
    + rewrite Hnil. reflexivity.
    + assert (Htok : Forall (fun t => t <> []) (split_ws (trim text))).
      { apply split_go_tokens_nonempty; [|exact Hend]. right. now exists c, r. }
      unfold words. rewrite (filter_nonempty_id _ Htok).
      pose proof (split_go_not_nil (trim text) false []) as Hne.
      unfold split_ws in *. destruct (split_go false [] (trim text)); [congruence|].
      cbn. lia.
  - unfold window.
    set (l := slice (words text) start
                (Z.min (start + C) (Z.of_nat (length (words text))))).
    assert (Hl : Forall is_word l)
      by (unfold l, slice; apply Forall_take, Forall_drop, words_are_words).
    rewrite (words_join l Hl). destruct l as [|w l'] eqn:El; [reflexivity|].
    unfold split_ws. rewrite split_join_words by (trivial; discriminate).
    cbn. lia.
Qed.

(** X5. The field chunk_size_words that [ingestAndEmbed] records with a
    chunk of [chunkText] is the number of words of the chunk, except for
    the empty chunk, where it is 1 (splitting the empty string gives one
    empty token). *)
Theorem chunk_size_words_recorded (W : Services) (file : File) (m : metadata)
    (total i : nat) (embedding : vector) (text : jsstring) (C O : Z) :
  Forall (fun chunk =>
            res_metadata (chunkResult W file m total i chunk embedding)
              !! js "chunk_size_words"
            = Some (JInt (Nat.max 1 (length (words chunk)))))
    (chunkText text C O).
Proof.
  rewrite chunkText_closed.
  eapply Forall_impl; [apply chunk_list_shape|].
  intros chunk Hshape. cbn [chunkResult res_metadata].
  rewrite lookup_insert_eq. now rewrite (split_ws_count chunk text C Hshape).
Qed.

(** ** Metadata extraction: the success path *)

Ltac js_neq := let H := fresh in intros H; vm_compute in H; discriminate H.

(** The success log reads name, location, role and skills, none of which
    is a provenance field. *)
Lemma success_log_under_provenance (W : Services) (filename : jsstring) (m : metadata) :
  success_log_throws W
    (<[js "extraction_model" := JStr models_chat]>
       (<[js "extracted_at" := JStr (now_iso W)]>
          (<[js "file_type" := JStr (file_type_of W filename)]>
             (<[js "source_filename" := JStr filename]> m))))
  = success_log_throws W m.
Proof.
  unfold success_log_throws, field_log_throws, skills_log_throws.
  now rewrite !lookup_insert_ne by js_neq.
Qed.

(** X6. When the extraction call returns JSON that parses and no line of
    the success log throws (name, location and role, where truthy, convert
    to a string; skills is no non-empty string, no object with a truthy
    length, and no array with an unconvertible element among its first
    five), the result keeps every extracted field except that
    source_filename, file_type, extracted_at and extraction_model are
    always the system's values: a field of one of these names in the
    model's output is overwritten. *)
Theorem extractMetadataWithAI_success (W : Services)
    (content filename text : jsstring) (extracted : json) :
  chat_extract W content = Returns text ->
  JSON_parse W text = Returns extracted ->
  success_log_throws W (spread extracted) = None ->
  let m := extractMetadataWithAI W content filename in
  m !! js "source_filename" = Some (JStr filename)
  /\ m !! js "file_type" = Some (JStr (file_type_of W filename))
  /\ m !! js "extracted_at" = Some (JStr (now_iso W))
  /\ m !! js "extraction_model" = Some (JStr models_chat)
  /\ forall k, k ∉ provenance_keys -> m !! k = spread extracted !! k.
Proof.
  intros Hcall Hparse Hlog. cbv zeta. unfold extractMetadataWithAI.
  rewrite Hcall, Hparse. cbv zeta. rewrite success_log_under_provenance, Hlog.
  repeat split.
  - now rewrite !lookup_insert_ne, lookup_insert_eq by js_neq.
  - now rewrite !lookup_insert_ne, lookup_insert_eq by js_neq.
  - now rewrite !lookup_insert_ne, lookup_insert_eq by js_neq.
  - now rewrite lookup_insert_eq.
  - intros k Hk. unfold provenance_keys in Hk.
    rewrite !lookup_insert_ne by set_solver. reflexivity.
Qed.

(** The model's output claims another source file; the system's value wins
    and the extracted name stays. *)
Lemma extractMetadataWithAI_success_witness :
  let W :=
    {| fs_readdir := Returns []; fs_stat_isFile := fun _ => Returns true;
       fs_readFile := fun _ => Returns []; path_extname := fun _ => js ".md";
       chat_extract := fun _ => Returns (js "{...}");
       JSON_parse := fun _ =>
         Returns (JObj [(js "name", JStr (js "Ada"));
                        (js "source_filename", JStr (js "other.txt"))]);
       not_a_function := fun method => method;
       cannot_convert := js "Cannot convert object to primitive value";
       embeddings_create := fun _ => Returns [];
       chat_answer := fun _ _ => Throws [];
       db_delete := Returns None; db_insert := fun _ => Returns None;
       db_rpc_match_information := fun _ => Throws [];
       now_iso := js "2025-01-01T00:00:00.000Z"; elapsed_seconds := js "0.1";
       toFixed1 := fun _ => [] |} in
  extractMetadataWithAI W (js "Ada") (js "notes.md") !! js "source_filename"
  = Some (JStr (js "notes.md"))
  /\ extractMetadataWithAI W (js "Ada") (js "notes.md") !! js "name"
     = Some (JStr (js "Ada")).
Proof.
  intros W.
  destruct (extractMetadataWithAI_success W (js "Ada") (js "notes.md") (js "{...}")
              (JObj [(js "name", JStr (js "Ada"));
                     (js "source_filename", JStr (js "other.txt"))]))
    as (Hsource & _ & _ & _ & Hother); [reflexivity | reflexivity | reflexivity |].
  split; [exact Hsource|].
  rewrite Hother; [reflexivity|].
  unfold provenance_keys. intros Hin.
  apply elem_of_union in Hin as [Hin | Hin]; [|apply elem_of_singleton in Hin; revert Hin; js_neq].
  apply elem_of_union in Hin as [Hin | Hin]; [|apply elem_of_singleton in Hin; revert Hin; js_neq].
  apply elem_of_union in Hin as [Hin | Hin]; apply elem_of_singleton in Hin; revert Hin; js_neq.
Defined.

(** Whatever line of the success log throws, the extracted fields are
    lost: the result is the failure object with the message thrown. *)
Lemma extractMetadataWithAI_log_throws (W : Services)
    (content filename text message : jsstring) (extracted : json) :
  chat_extract W content = Returns text ->
  JSON_parse W text = Returns extracted ->
  success_log_throws W (spread extracted) = Some message ->
  extractMetadataWithAI W content filename = basic_metadata W filename message.
Proof.
  intros Hcall Hparse Hlog. unfold extractMetadataWithAI.
  rewrite Hcall, Hparse. cbv zeta. now rewrite success_log_under_provenance, Hlog.
Qed.

(** X7. When the model answers with skills as a non-empty string instead
    of an array, and the log lines before it (name, location, role) do not
    throw, the skills line of the success log throws inside the [try]:
    although the call and the parse succeeded, everything extracted is
    discarded and the result is the failure object, with the TypeError's
    message as extraction_error. *)
Theorem extractMetadataWithAI_skills_string (W : Services)
    (content filename text : jsstring) (extracted : json) (c : N) (skills : jsstring) :
  chat_extract W content = Returns text ->
  JSON_parse W text = Returns extracted ->
  field_log_throws (spread extracted) (js "name") = false ->
  field_log_throws (spread extracted) (js "location") = false ->
  field_log_throws (spread extracted) (js "role") = false ->
  spread extracted !! js "skills" = Some (JStr (c :: skills)) ->
  let m := extractMetadataWithAI W content filename in
  m = basic_metadata W filename (not_a_function W (js "join"))
  /\ dom m = ({[ js "source_filename"; js "file_type"; js "extracted_at";
                 js "extraction_error" ]} : gset jsstring)
  /\ m !! js "skills" = None.
Proof.
  intros Hcall Hparse Hname Hlocation Hrole Hskills. cbv zeta.
  assert (Hm : extractMetadataWithAI W content filename
               = basic_metadata W filename (not_a_function W (js "join"))).
  { apply (extractMetadataWithAI_log_throws W content filename text _ extracted);
      trivial.
    unfold success_log_throws, skills_log_throws.
    now rewrite Hname, Hlocation, Hrole, Hskills. }
  rewrite Hm. split; [reflexivity|]. split; [apply basic_metadata_dom|].
  unfold basic_metadata. now rewrite !lookup_insert_ne by js_neq.
Qed.

Lemma extractMetadataWithAI_skills_string_witness :
  let W :=
    {| fs_readdir := Returns []; fs_stat_isFile := fun _ => Returns true;
       fs_readFile := fun _ => Returns []; path_extname := fun _ => js ".md";
       chat_extract := fun _ => Returns (js "{...}");
       JSON_parse := fun _ =>
         Returns (JObj [(js "name", JStr (js "Ada"));
                        (js "skills", JStr (js "Rocq, OCaml"))]);
       not_a_function := fun method => method ++ js " is not a function";
       cannot_convert := js "Cannot convert object to primitive value";
       embeddings_create := fun _ => Returns [];
       chat_answer := fun _ _ => Throws [];
       db_delete := Returns None; db_insert := fun _ => Returns None;
       db_rpc_match_information := fun _ => Throws [];
       now_iso := js "2025-01-01T00:00:00.000Z"; elapsed_seconds := js "0.1";
       toFixed1 := fun _ => [] |} in
  extractMetadataWithAI W (js "Ada") (js "notes.md") !! js "extraction_error"
  = Some (JStr (js "join is not a function"))
  /\ extractMetadataWithAI W (js "Ada") (js "notes.md") !! js "name" = None.
Proof.
  intros W.
  destruct (extractMetadataWithAI_skills_string W (js "Ada") (js "notes.md") (js "{...}")
              (JObj [(js "name", JStr (js "Ada"));
                     (js "skills", JStr (js "Rocq, OCaml"))]) 82%N (js "ocq, OCaml"))
    as (Heq & _ & _); try reflexivity.
  rewrite Heq. split; reflexivity.
Defined.

(** A name that is an object with a field [toString] cannot be printed:
    the name line of the log throws, and the result is the failure object;
    so is it for a skills array holding such an element. *)
Example extractMetadataWithAI_unprintable_name :
  let W := sample_world (Returns (js "{...}")) (fun _ => Returns [1; 0]%Q)
             (Returns None) in
  success_log_throws W
    (spread (JObj [(js "name", JObj [(js "toString", JNum 1)])]))
  = Some (js "Cannot convert object to primitive value")
  /\ success_log_throws W
       (spread (JObj [(js "skills", JArr [JStr (js "Rocq");
                                          JObj [(js "toString", JNum 1)]])]))
     = Some (js "Cannot convert object to primitive value")
  /\ success_log_throws W
       (spread (JObj [(js "name", JObj [(js "first", JStr (js "Ada"))]);
                      (js "skills", JArr [JStr (js "Rocq"); JNull; JArr []])]))
     = None.
Proof. cbv zeta. repeat split; vm_compute; reflexivity. Qed.

(** ** Ingestion: what a file adds to the buffer *)

Lemma embedChunks_prefix (W : Services) (file : File) (m : metadata) (total : nat)
    (chunks : list jsstring) :
  forall (i : nat) (results : list EmbeddedResult),
  exists added,
    snd (embedChunks W file m total i chunks results) = results ++ added
    /\ (length added <= length chunks)%nat
    /\ forall (j : nat) (r : EmbeddedResult),
         added !! j = Some r ->
         exists chunk e,
           chunks !! j = Some chunk
           /\ embeddings_create W chunk = Returns e
           /\ r = chunkResult W file m total (i + j) chunk e.
Proof.
  induction chunks as [|chunk rest IH]; intros i results.
  - exists []. cbn. rewrite app_nil_r. repeat split; [lia | discriminate].
  - cbn [embedChunks]. unfold generateEmbedding.
    destruct (embeddings_create W chunk) as [e|message] eqn:He.
    + destruct (IH (S i) (results ++ [chunkResult W file m total i chunk e]))
        as (added & Heq & Hlen & Hall).
      exists (chunkResult W file m total i chunk e :: added).
      rewrite Heq, <- app_assoc. split; [reflexivity|]. split; [cbn; lia|].
      intros [|j] r Hr.
      * injection Hr as <-. exists chunk, e. rewrite Nat.add_0_r. now repeat split.
      * destruct (Hall j r Hr) as (chunk' & e' & Hc & He' & ->).
        exists chunk', e'. repeat split; trivial. f_equal. lia.
    + exists []. cbn. rewrite app_nil_r. repeat split; [lia | discriminate].
Qed.

(** X8. Whatever the collaborators answer, [ingestFile] only appends to
    the buffer: at most one entry per chunk, in chunk order, entry j
    carrying the file's name, chunk j as content, chunk_index j,
    chunk_number j+1, total_chunks = the number of chunks and
    chunk_size_chars = the length of the chunk, and every other metadata
    field exactly as in the file's metadata, which is therefore the same on
    all entries of the file. *)
Theorem ingestFile_entries (W : Services) (file : File)
    (results : list EmbeddedResult) :
  let chunks := chunkText (file_content file) 300 50 in
  let m := extractMetadataWithAI W (file_content file) (file_filename file) in
  exists added,
    ingestFile W file results = results ++ added
    /\ (length added <= length chunks)%nat
    /\ forall (j : nat) (r : EmbeddedResult),
         added !! j = Some r ->
         res_filename r = file_filename file
         /\ chunks !! j = Some (res_content r)
         /\ res_metadata r !! js "chunk_index" = Some (JInt j)
         /\ res_metadata r !! js "chunk_number" = Some (JInt (j + 1))
         /\ res_metadata r !! js "total_chunks" = Some (JInt (length chunks))
         /\ res_metadata r !! js "chunk_size_chars" = Some (JInt (length (res_content r)))
         /\ forall k, k ∉ chunk_keys -> res_metadata r !! k = m !! k.
Proof.
  cbv zeta. unfold ingestFile.
  destruct (embedChunks_prefix W file
              (extractMetadataWithAI W (file_content file) (file_filename file))
              (length (chunkText (file_content file) 300 50))
              (chunkText (file_content file) 300 50) 0 results)
    as (added & Heq & Hlen & Hall).
  exists added. split; [exact Heq|]. split; [exact Hlen|].
  intros j r Hr. destruct (Hall j r Hr) as (chunk & e & Hc & _ & ->).
  cbn [chunkResult res_filename res_content res_metadata Nat.add].
  repeat split; trivial.
  - now rewrite !lookup_insert_ne, lookup_insert_eq by js_neq.
  - now rewrite !lookup_insert_ne, lookup_insert_eq by js_neq.
  - now rewrite !lookup_insert_ne, lookup_insert_eq by js_neq.
  - now rewrite !lookup_insert_ne, lookup_insert_eq by js_neq.
  - intros k Hk. unfold chunk_keys in Hk.
    rewrite !lookup_insert_ne by set_solver. reflexivity.
Qed.

(** The sample file: one entry, numbered 0, under the file's name. *)
Lemma ingestFile_entries_witness :
  let W := sample_world (Returns (js "{}")) (fun _ => Returns [1; 0]%Q) (Returns None) in
  let file := {| file_filename := js "notes.txt";
                 file_content := js " Ada proves  theorems " |} in
  exists r,
    ingestFile W file [] = [r]
    /\ res_filename r = js "notes.txt"
    /\ res_metadata r !! js "chunk_index" = Some (JInt 0)
    /\ res_metadata r !! js "name" = Some (JStr (js "Ada")).
Proof.
  intros W file.
  destruct (ingestFile_entries W file []) as (added & Heq & Hlen & Hall).
  cbn [app] in Heq.
  assert (Hone : length (ingestFile W file []) = 1%nat) by (vm_compute; reflexivity).
  rewrite Heq in Hone. destruct added as [|r [|r' rest]]; try discriminate Hone.
  exists r. split; [exact Heq|].
  destruct (Hall 0%nat r eq_refl) as (Hname & _ & Hindex & _ & _ & _ & Hother).
  split; [exact Hname|]. split; [exact Hindex|].
  rewrite Hother; [reflexivity|].
  unfold chunk_keys. intros Hin.
  repeat (apply elem_of_union in Hin as [Hin | Hin];
          [|apply elem_of_singleton in Hin; revert Hin; js_neq]).
  apply elem_of_singleton in Hin; revert Hin; js_neq.
Defined.

Lemma embedChunks_stops (W : Services) (file : File) (m : metadata) (total : nat)
    (pre : list jsstring) (es : list vector) (bad : jsstring) (post : list jsstring)
    (message : jsstring) :
  Forall2 (fun chunk e => embeddings_create W chunk = Returns e) pre es ->
  embeddings_create W bad = Throws message ->
  forall (i : nat) (results : list EmbeddedResult),
    embedChunks W file m total i (pre ++ bad :: post) results
    = (Throws message,
       results ++ imap (fun j ce => chunkResult W file m total (i + j) ce.1 ce.2)
                    (zip pre es)).
Proof.
  intros Hpre Hbad. induction Hpre as [|chunk e pre es He _ IH]; intros i results.
  - cbn [app embedChunks]. unfold generateEmbedding. rewrite Hbad.
    cbn. now rewrite app_nil_r.
  - cbn [app embedChunks]. unfold generateEmbedding. rewrite He, IH.
    cbn [zip zip_with imap]. rewrite <- app_assoc. cbn [app].
    rewrite Nat.add_0_r. do 3 f_equal.
    apply imap_ext. intros j ce _. cbn. f_equal. lia.
Qed.

(** X9. A document is not ingested all-or-nothing: when the embedding of
    one of its chunks throws, the chunks embedded before it stay in the
    buffer (and are inserted later), each recording total_chunks as the
    full number of chunks although the later ones are missing. *)
Theorem ingestFile_partial_document (W : Services) (file : File)
    (results : list EmbeddedResult) (pre : list jsstring) (es : list vector)
    (bad : jsstring) (post : list jsstring) (message : jsstring) :
  chunkText (file_content file) 300 50 = pre ++ bad :: post ->
  Forall2 (fun chunk e => embeddings_create W chunk = Returns e) pre es ->
  embeddings_create W bad = Throws message ->
  let m := extractMetadataWithAI W (file_content file) (file_filename file) in
  ingestFile W file results
  = results ++ imap (fun j ce => chunkResult W file m
                                   (length pre + S (length post)) j ce.1 ce.2)
                 (zip pre es).
Proof.
  intros Hchunks Hpre Hbad. cbv zeta. unfold ingestFile. rewrite Hchunks.
  rewrite (embedChunks_stops W file _ _ pre es bad post message Hpre Hbad).
  cbn [snd]. now rewrite length_app.
Qed.

(** 310 words, two chunks; the embedder accepts the first (it starts with
    "w1 ") and is rate-limited on the second: one entry stays, recording
    total_chunks 2. *)
Lemma ingestFile_partial_document_witness :
  let W := sample_world (Returns (js "{}"))
             (fun chunk => if bool_decide (take 3 chunk = js "w1 ")
                           then Returns [1; 0]%Q
                           else Throws (js "429 rate limit"))
             (Returns None) in
  let file := {| file_filename := js "long.txt"; file_content := numbered_text 310 |} in
  List.map (fun r => (res_metadata r !! js "chunk_number",
                      res_metadata r !! js "total_chunks"))
    (ingestFile W file [])
  = [(Some (JInt 1), Some (JInt 2))].
Proof.
  intros W file.
  rewrite (ingestFile_partial_document W file []
             [join (js " ") (numbered 1 300)] [[1; 0]%Q]
             (join (js " ") (numbered 251 60)) [] (js "429 rate limit")).
  - vm_compute. reflexivity.
  - vm_compute. reflexivity.
  - repeat constructor.
  - vm_compute. reflexivity.
Defined.

(** ** Ingestion: persisting the buffer, and the run as a whole *)

Lemma foldl_insertOne (W : Services) (results : list EmbeddedResult) :
  forall st : State,
    foldl (insertOne W) st results
    = {| embeddedResults := embeddedResults st;
         embeddedinfo :=
           embeddedinfo st
           ++ imap (fun j r => inserted_row (next_id st + Z.of_nat j) r)
                (List.filter (accepted W) results);
         next_id :=
           next_id st + Z.of_nat (length (List.filter (accepted W) results)) |}.
Proof.
  induction results as [|r results IH]; intros st.
  - cbn. rewrite app_nil_r, Z.add_0_r. now destruct st.
  - cbn [foldl List.filter]. rewrite IH. unfold insertOne, accepted.
    destruct (db_insert W r) as [[error|]|message]; cbn; try reflexivity.
    rewrite <- app_assoc. cbn [app]. rewrite Z.add_0_r.
    f_equal; [|lia]. do 2 f_equal.
    apply imap_ext. intros j r' _. cbn. f_equal. lia.
Qed.

Lemma insertEmbeddedInfoToSupabase_closed (W : Services) (st : State) :
  insertEmbeddedInfoToSupabase W st
  = {| embeddedResults := embeddedResults st;
       embeddedinfo :=
         embeddedinfo st
         ++ imap (fun j r => inserted_row (next_id st + Z.of_nat j) r)
              (List.filter (accepted W) (embeddedResults st));
       next_id :=
         next_id st
         + Z.of_nat (length (List.filter (accepted W) (embeddedResults st))) |}.
Proof.
  unfold insertEmbeddedInfoToSupabase.
  destruct (embeddedResults st) as [|r results] eqn:Hbuf.
  - cbn. rewrite app_nil_r, Z.add_0_r. destruct st; cbn in *. now subst.
  - rewrite foldl_insertOne. now rewrite Hbuf.
Qed.

Lemma inserted_rows_match (l : list EmbeddedResult) :
  forall id : Z,
    Forall2 (fun row r =>
               row_filename row = res_filename r
               /\ row_content row = res_content r
               /\ row_metadata row = Some (res_metadata r)
               /\ row_embedding row = Some (res_embedding r)
               /\ row_created_at row = res_createdAt r)
      (imap (fun j r => inserted_row (id + Z.of_nat j) r) l) l.
Proof.
  induction l as [|r l IH]; intros id; [constructor|].
  cbn [imap]. constructor; [now repeat split|].
  specialize (IH (id + 1)).
  erewrite imap_ext; [exact IH|]. intros j r' _. cbn. f_equal. lia.
Qed.

(** X10. [insertEmbeddedInfoToSupabase] runs one insert per buffer entry
    and a rejected entry stops nothing: the table keeps the rows it had and
    gains, after them, one row for each accepted entry, in buffer order,
    with that entry's filename, content, metadata, embedding and creation
    time; the buffer itself is left as it was. *)
Theorem insertEmbeddedInfoToSupabase_rows (W : Services) (st : State) :
  let st' := insertEmbeddedInfoToSupabase W st in
  embeddedResults st' = embeddedResults st
  /\ exists rows,
       embeddedinfo st' = embeddedinfo st ++ rows
       /\ Forall2 (fun row r =>
                     row_filename row = res_filename r
                     /\ row_content row = res_content r
                     /\ row_metadata row = Some (res_metadata r)
                     /\ row_embedding row = Some (res_embedding r)
                     /\ row_created_at row = res_createdAt r)
            rows (List.filter (accepted W) (embeddedResults st)).
Proof.
  cbv zeta. rewrite insertEmbeddedInfoToSupabase_closed.
  cbn [embeddedResults embeddedinfo]. split; [reflexivity|].
  eexists. split; [reflexivity|]. apply inserted_rows_match.
Qed.

Lemma clearDatabase_table (W : Services) (st : State) :
  embeddedResults (snd (clearDatabase W st)) = embeddedResults st
  /\ next_id (snd (clearDatabase W st)) = next_id st
  /\ embeddedinfo (snd (clearDatabase W st))
     = if clear_success (fst (clearDatabase W st))
       then List.filter (fun row => row_id row =? 0) (embeddedinfo st)
       else embeddedinfo st.
Proof.
  unfold clearDatabase. destruct (db_delete W) as [[error|]|message]; cbn; auto.
Qed.

(** The state in which the pipeline starts reading: buffer reset, table
    cleared if asked for and possible. *)
Lemma runIngestion_unfold (W : Services) (clearFirst : bool) (st : State) :
  let st0 := {| embeddedResults := []; embeddedinfo := embeddedinfo st;
                next_id := next_id st |} in
  let st1 := if clearFirst then snd (clearDatabase W st0) else st0 in
  embeddedResults st1 = []
  /\ next_id st1 = next_id st
  /\ embeddedinfo st1
     = (if clearFirst && clear_success (fst (clearDatabase W st))
        then List.filter (fun row => row_id row =? 0) (embeddedinfo st)
        else embeddedinfo st).
Proof.
  cbv zeta. destruct clearFirst; cbn [andb]; [|now repeat split].
  destruct (clearDatabase_table W {| embeddedResults := []; embeddedinfo := embeddedinfo st;
                                     next_id := next_id st |}) as (Hb & Hn & Ht).
  repeat split; trivial. rewrite Ht. cbn [embeddedinfo].
  unfold clearDatabase. now destruct (db_delete W) as [[error|]|message].
Qed.

(** X11. Reading the directory is the only step whose failure fails the
    run: [runIngestion] reports success exactly when [readInfoFiles]
    returns, whatever the delete, the extraction, the embeddings and the
    inserts do; when it throws, the result carries its message, with
    "Ingestion failed", and nothing is buffered. *)
Theorem runIngestion_success_iff (W : Services) (clearFirst : bool) (st : State) :
  (ingestion_success (fst (runIngestion W clearFirst st)) = true
   <-> exists files, readInfoFiles W = Returns files)
  /\ forall message,
       readInfoFiles W = Throws message ->
       fst (runIngestion W clearFirst st)
       = {| ingestion_success := false;
            ingestion_filesProcessed := None;
            ingestion_chunksCreated := None;
            ingestion_duration := None;
            ingestion_error := Some message;
            ingestion_message := js "Ingestion failed" |}
       /\ embeddedResults (snd (runIngestion W clearFirst st)) = [].
Proof.
  pose proof (runIngestion_unfold W clearFirst st) as (Hbuf & _ & _).
  unfold runIngestion. cbv zeta in *. unfold ingestAndEmbed.
  destruct (readInfoFiles W) as [files|message]; cbn [fst snd ingestion_success].
  - split; [split; eauto | discriminate].
  - split; [split; [discriminate | intros [files [=]]]|].
    intros message' [= <-]. split; [reflexivity | exact Hbuf].
Qed.

(** A directory that cannot be read. *)
Lemma runIngestion_success_iff_witness :
  let W :=
    {| fs_readdir := Throws (js "ENOENT: no such file or directory");
       fs_stat_isFile := fun _ => Returns true;
       fs_readFile := fun _ => Returns []; path_extname := fun _ => [];
       chat_extract := fun _ => Throws []; JSON_parse := fun _ => Throws [];
       not_a_function := fun method => method;
       cannot_convert := js "Cannot convert object to primitive value";
       embeddings_create := fun _ => Throws [];
       chat_answer := fun _ _ => Throws [];
       db_delete := Returns None; db_insert := fun _ => Returns None;
       db_rpc_match_information := fun _ => Throws [];
       now_iso := js "2025-01-01T00:00:00.000Z"; elapsed_seconds := js "0.0";
       toFixed1 := fun _ => [] |} in
  ingestion_error (fst (runIngestion W false sample_state))
  = Some (js "ENOENT: no such file or directory").
Proof.
  intros W.
  destruct (runIngestion_success_iff W false sample_state) as (_ & Hfail).
  destruct (Hfail (js "ENOENT: no such file or directory") eq_refl) as (Hres & _).
  now rewrite Hres.
Defined.

Lemma runIngestion_success_shape (W : Services) (clearFirst : bool) (st : State)
    (files : list File) :
  readInfoFiles W = Returns files ->
  let run := runIngestion W clearFirst st in
  let base := if clearFirst && clear_success (fst (clearDatabase W st))
              then List.filter (fun row => row_id row =? 0) (embeddedinfo st)
              else embeddedinfo st in
  embeddedResults (snd run)
  = foldl (fun results file => ingestFile W file results) [] files
  /\ ingestion_success (fst run) = true
  /\ ingestion_chunksCreated (fst run) = Some (length (embeddedResults (snd run)))
  /\ embeddedinfo (snd run)
     = base ++ imap (fun j r => inserted_row (next_id st + Z.of_nat j) r)
                 (List.filter (accepted W) (embeddedResults (snd run))).
Proof.
  intros Hread. cbv zeta.
  pose proof (runIngestion_unfold W clearFirst st) as (Hbuf & Hid & Htable).
  unfold runIngestion. cbv zeta in *. unfold ingestAndEmbed. rewrite Hread.
  rewrite insertEmbeddedInfoToSupabase_closed.
  cbn [fst snd embeddedResults embeddedinfo next_id
       ingestion_success ingestion_chunksCreated].
  rewrite Hbuf, Hid, Htable. now repeat split.
Qed.

(** X12. The run's report does not look at the inserts: when the
    directory is read and every insert is rejected, [runIngestion] still
    returns success: true with chunksCreated = the number of buffered
    chunks, while the table gains no row. *)
Theorem runIngestion_inserts_rejected (W : Services) (clearFirst : bool) (st : State)
    (files : list File) :
  readInfoFiles W = Returns files ->
  (forall r, accepted W r = false) ->
  let run := runIngestion W clearFirst st in
  ingestion_success (fst run) = true
  /\ ingestion_chunksCreated (fst run)
     = Some (length (foldl (fun results file => ingestFile W file results) [] files))
  /\ embeddedinfo (snd run)
     = (if clearFirst && clear_success (fst (clearDatabase W st))
        then List.filter (fun row => row_id row =? 0) (embeddedinfo st)
        else embeddedinfo st).
Proof.
  intros Hread Hrej. cbv zeta.
  destruct (runIngestion_success_shape W clearFirst st files Hread)
    as (Hbuf & Hok & Hcount & Htable).
  split; [exact Hok|]. split; [now rewrite Hcount, Hbuf|].
  rewrite Htable.
  assert (Hnone : forall l, List.filter (accepted W) l = []).
  { induction l as [|r l IH]; [reflexivity|]. cbn. now rewrite Hrej. }
  rewrite Hnone. cbn. now rewrite app_nil_r.
Qed.

(** The sample directory with a store that rejects every insert: success
    and one chunk reported, the three rows of the table unchanged. *)
Lemma runIngestion_inserts_rejected_witness :
  let W := with_db_insert
             (sample_world (Returns (js "{}")) (fun _ => Returns [1; 0]%Q) (Returns None))
             (fun _ => Returns (Some (js "expected 1536 dimensions, not 2"))) in
  let run := runIngestion W false sample_state in
  ingestion_success (fst run) = true
  /\ ingestion_chunksCreated (fst run) = Some 1%nat
  /\ embeddedinfo (snd run) = sample_table.
Proof.
  intros W.
  destruct (runIngestion_inserts_rejected W false sample_state
              [{| file_filename := js "notes.txt";
                  file_content := js " Ada proves  theorems " |}])
    as (Hok & Hcount & Htable); [reflexivity | reflexivity |].
  cbv zeta. split; [exact Hok|]. split; [|exact Htable].
  rewrite Hcount. reflexivity.
Defined.

(** X13. What a run does to the table: the rows it had are removed only
    when clearFirst is set and the delete succeeds (and then only those
    whose id is not 0); otherwise they all stay. After them come the rows
    of this run, one per accepted buffer entry, with ids from the sequence
    on. So a run without a successful clear never removes a row, and
    ingesting the same files again stores them again. *)
Theorem runIngestion_table (W : Services) (clearFirst : bool) (st : State) :
  let run := runIngestion W clearFirst st in
  exists rows,
    embeddedinfo (snd run)
    = (if clearFirst && clear_success (fst (clearDatabase W st))
       then List.filter (fun row => row_id row =? 0) (embeddedinfo st)
       else embeddedinfo st) ++ rows
    /\ length rows = length (List.filter (accepted W) (embeddedResults (snd run)))
    /\ Forall (fun row => next_id st <= row_id row) rows.
Proof.
  cbv zeta. destruct (readInfoFiles W) as [files|message] eqn:Hread.
  - destruct (runIngestion_success_shape W clearFirst st files Hread)
      as (_ & _ & _ & Htable).
    eexists. split; [exact Htable|]. split; [now rewrite length_imap|].
    apply Forall_forall. intros row Hin.
    apply elem_of_lookup_imap in Hin as (j & r & -> & _). cbn. lia.
  - pose proof (runIngestion_unfold W clearFirst st) as (Hbuf & _ & Htable).
    exists []. unfold runIngestion. cbv zeta in *. unfold ingestAndEmbed.
    rewrite Hread. cbn [snd]. rewrite Hbuf, Htable, app_nil_r.
    repeat split. constructor.
Qed.

(** X14. A directory without files: the run succeeds with
    filesProcessed 0 and chunksCreated 0, no insert is made, and the table
    is touched by the clear step alone. *)
Theorem runIngestion_no_files (W : Services) (clearFirst : bool) (st : State) :
  readInfoFiles W = Returns [] ->
  let run := runIngestion W clearFirst st in
  fst run = {| ingestion_success := true;
               ingestion_filesProcessed := Some 0%nat;
               ingestion_chunksCreated := Some 0%nat;
               ingestion_duration := Some (elapsed_seconds W ++ js "s");
               ingestion_error := None;
               ingestion_message := js "Ingestion completed successfully" |}
  /\ embeddedinfo (snd run)
     = (if clearFirst && clear_success (fst (clearDatabase W st))
        then List.filter (fun row => row_id row =? 0) (embeddedinfo st)
        else embeddedinfo st).
Proof.
  intros Hread. cbv zeta.
  pose proof (runIngestion_unfold W clearFirst st) as (Hbuf & _ & Htable).
  unfold runIngestion. cbv zeta in *. unfold ingestAndEmbed. rewrite Hread.
  cbn [foldl]. unfold insertEmbeddedInfoToSupabase.
  cbn [embeddedResults]. rewrite Hbuf. cbn [fst snd embeddedinfo embeddedResults
                                           List.map list_to_set length].
  split; [|exact Htable]. now rewrite size_empty.
Qed.

(** A directory that holds a sub-directory only, cleared first. *)
Lemma runIngestion_no_files_witness :
  let W :=
    {| fs_readdir := Returns [js "drafts"]; fs_stat_isFile := fun _ => Returns false;
       fs_readFile := fun _ => Throws (js "EISDIR"); path_extname := fun _ => [];
       chat_extract := fun _ => Throws []; JSON_parse := fun _ => Throws [];
       not_a_function := fun method => method;
       cannot_convert := js "Cannot convert object to primitive value";
       embeddings_create := fun _ => Throws [];
       chat_answer := fun _ _ => Throws [];
       db_delete := Returns None; db_insert := fun _ => Returns None;
       db_rpc_match_information := fun _ => Throws [];
       now_iso := js "2025-01-01T00:00:00.000Z"; elapsed_seconds := js "0.0";
       toFixed1 := fun _ => [] |} in
  ingestion_filesProcessed (fst (runIngestion W true sample_state)) = Some 0%nat
  /\ embeddedinfo (snd (runIngestion W true sample_state)) = [].
Proof.
  intros W.
  destruct (runIngestion_no_files W true sample_state) as (Hres & Htable);
    [reflexivity|].
  split; [now rewrite Hres | exact Htable].
Defined.

(** ** Vector search: where the rows come from, and how LIMIT cuts *)

Lemma insert_by_distance_perm x l : insert_by_distance x l ≡ₚ x :: l.
Proof.
  induction l as [|y l IH]; cbn [insert_by_distance]; [reflexivity|].
  destruct (float8_le (fst x) (fst y)); [reflexivity|].
  rewrite IH. apply Permutation_swap.
Qed.

Lemma order_by_distance_perm l : order_by_distance l ≡ₚ l.
Proof.
  induction l as [|x l IH]; [reflexivity|].
  cbn. now rewrite insert_by_distance_perm, IH.
Qed.

(** X15. Every row [match_information] returns is a row of the table: its
    id, content and metadata are that row's, its similarity is 1 minus the
    cosine distance of that row's embedding to the query, and when a
    filter is given the row's metadata is not NULL and contains the
    filter. *)
Theorem match_information_rows_from_table (pg : Postgres) (table : list DbRow)
    (query_embedding : vector) (match_count : Z) (match_threshold : Q)
    (filter : option metadata) :
  0 <= match_count ->
  exists rows,
    match_information pg table query_embedding match_count match_threshold filter
    = Some rows
    /\ Forall (fun hit =>
         exists row embedding,
           row ∈ table
           /\ hit_id hit = row_id row
           /\ hit_content hit = row_content row
           /\ hit_metadata hit = row_metadata row
           /\ row_embedding row = Some embedding
           /\ hit_similarity hit
              = similarity_of pg (cosine_distance pg embedding query_embedding)
           /\ forall f, filter = Some f ->
                exists m, row_metadata row = Some m /\ jsonb_contains pg m f = true)
       rows.
Proof.
  intros Hcount. rewrite match_information_closed.
  destruct (Z.ltb_spec match_count 0); [lia|].
  eexists. split; [reflexivity|].
  apply List.Forall_map, Forall_take, Forall_order_by_distance, Forall_forall.
  intros [d row] Hin. apply elem_of_keyed_rows in Hin as (Hin & Hwhere & Hd).
  unfold distance in Hd. destruct (row_embedding row) as [e|] eqn:He; [|discriminate].
  injection Hd as <-. exists row, e. cbn. repeat split; trivial.
  intros f ->. unfold where_clause in Hwhere.
  apply andb_prop in Hwhere as [Hfilter _].
  destruct (row_metadata row) as [m|]; [|discriminate]. now exists m.
Qed.

(** The sample table filtered on the name Ada: rows 3 and 1. *)
Lemma match_information_rows_from_table_witness :
  exists rows,
    match_information sample_pg sample_table [1; 0]%Q 5 (-1)
      (Some {[ js "name" := JStr (js "Ada") ]}) = Some rows
    /\ List.map hit_id rows = [3; 1].
Proof.
  destruct (match_information_rows_from_table sample_pg sample_table [1; 0]%Q 5 (-1)
              (Some {[ js "name" := JStr (js "Ada") ]}))
    as (rows & Hrun & _); [lia|].
  exists rows. split; [exact Hrun|].
  assert (Hs : option_map (List.map hit_id) (Some rows) = Some [3; 1])
    by (rewrite <- Hrun; vm_compute; reflexivity).
  cbn [option_map] in Hs. now injection Hs.
Defined.

(** X16. LIMIT only cuts: for 0 <= k <= k', the similarities returned
    for match_count k are the first k of the similarities returned for
    match_count k'. Asking for more rows never changes the scores already
    returned; the best score is the same for every match_count >= 1. *)
Theorem match_information_limit_prefix (pg : Postgres) (table : list DbRow)
    (query_embedding : vector) (k k' : Z) (match_threshold : Q)
    (filter : option metadata) :
  0 <= k <= k' ->
  List.map hit_similarity
    <$> match_information pg table query_embedding k match_threshold filter
  = (fun rows => take (Z.to_nat k) (List.map hit_similarity rows))
      <$> match_information pg table query_embedding k' match_threshold filter.
Proof.
  intros Hk. rewrite !match_information_closed.
  destruct (Z.ltb_spec k 0); [lia|]. destruct (Z.ltb_spec k' 0); [lia|].
  cbn [fmap option_fmap option_map]. f_equal.
  rewrite <- !firstn_map, take_take. f_equal. lia.
Qed.

Lemma match_information_limit_prefix_witness :
  List.map hit_similarity
    <$> match_information sample_pg sample_table [1; 0]%Q 1 (1 # 10) None
  = (fun rows => take 1 (List.map hit_similarity rows))
      <$> match_information sample_pg sample_table [1; 0]%Q 2 (1 # 10) None.
Proof.
  apply (match_information_limit_prefix sample_pg sample_table [1; 0]%Q 1 2). lia.
Defined.

Lemma length_omap_total {A B : Type} (f : A -> option B) (l : list A) :
  Forall (fun x => is_Some (f x)) l -> length (omap f l) = length l.
Proof.
  induction 1 as [|x l [y Hy] _ IH]; [reflexivity|].
  cbn. rewrite Hy. cbn. now rewrite IH.
Qed.

Lemma length_keyed_rows (pg : Postgres) (table : list DbRow) (q : vector) (mt : Q)
    (filter : option metadata) :
  length (keyed_rows pg table q mt filter)
  = length (List.filter (where_clause pg q mt filter) table).
Proof.
  unfold keyed_rows. apply length_omap_total, Forall_forall. intros row Hin.
  apply list_elem_of_In, List.filter_In in Hin as [_ Hwhere].
  unfold where_clause in Hwhere. apply andb_prop in Hwhere as [_ Hsim].
  destruct (distance pg q row); [eauto | discriminate].
Qed.

(** X17. When match_count is at least the number of rows that pass the
    WHERE clause, nothing is cut: the result has exactly that many rows,
    and every passing row of the table is in it. *)
Theorem match_information_complete (pg : Postgres) (table : list DbRow)
    (query_embedding : vector) (match_count : Z) (match_threshold : Q)
    (filter : option metadata) :
  Z.of_nat (length (List.filter
                      (where_clause pg query_embedding match_threshold filter) table))
  <= match_count ->
  exists rows,
    match_information pg table query_embedding match_count match_threshold filter
    = Some rows
    /\ length rows
       = length (List.filter
                   (where_clause pg query_embedding match_threshold filter) table)
    /\ forall row,
         row ∈ table ->
         where_clause pg query_embedding match_threshold filter row = true ->
         exists hit, hit ∈ rows /\ hit_id hit = row_id row
                     /\ hit_content hit = row_content row.
Proof.
  intros Hcount. rewrite match_information_closed.
  destruct (Z.ltb_spec match_count 0); [lia|].
  eexists. split; [reflexivity|].
  pose proof (length_keyed_rows pg table query_embedding match_threshold filter) as Hlen.
  pose proof (Permutation_length
                (order_by_distance_perm
                   (keyed_rows pg table query_embedding match_threshold filter))) as Hperm.
  rewrite take_ge by lia. split; [rewrite length_map; lia|].
  intros row Hin Hwhere.
  assert (Hd : is_Some (distance pg query_embedding row)).
  { unfold where_clause in Hwhere. apply andb_prop in Hwhere as [_ Hsim].
    destruct (distance pg query_embedding row); [eauto | discriminate]. }
  destruct Hd as [d Hd].
  exists (hit_of pg (d, row)). split; [|now split].
  apply list_elem_of_In, List.in_map, list_elem_of_In.
  rewrite order_by_distance_perm. apply elem_of_keyed_rows. now repeat split.
Qed.

Lemma match_information_complete_witness :
  exists rows,
    match_information sample_pg sample_table [1; 0]%Q 2 (1 # 10) None = Some rows
    /\ length rows = 2%nat.
Proof.
  destruct (match_information_complete sample_pg sample_table [1; 0]%Q 2 (1 # 10) None)
    as (rows & Hrun & Hlen & _); [vm_compute; discriminate|].
  exists rows. split; [exact Hrun|]. rewrite Hlen. reflexivity.
Defined.

(** ** Retriever: what a caller can rely on *)

(** X18. The result of [retrieveInformation] never carries both an error
    and data: when an error is reported the data is null; the query
    embedding is missing only together with an error; and matchCount is
    handed back as given. *)
Theorem retrieveInformation_error_or_data (W : Services) (userQuery : jsstring)
    (matchCount : Z) (matchThreshold : Q) (metadataFilter : option metadata) :
  let r := retrieveInformation W userQuery matchCount matchThreshold metadataFilter in
  (retrieval_error r <> None -> retrieval_data r = None)
  /\ (retrieval_queryEmbedding r = None -> retrieval_error r <> None)
  /\ retrieval_matchCount r = matchCount.
Proof.
  cbv zeta. unfold retrieveInformation, generateQueryEmbedding.
  destruct (embeddings_create W userQuery) as [e|message]; [|cbn; now repeat split].
  destruct (db_rpc_match_information W _) as [reply|message]; [|cbn; now repeat split].
  destruct (reply_error reply) as [error|]; [cbn; repeat split; congruence|].
  destruct (results_log_throws (reply_data reply)); cbn; repeat split; congruence.
Qed.

(** A search that answers with an error object. *)
Lemma retrieveInformation_error_or_data_witness :
  let W :=
    {| fs_readdir := Returns []; fs_stat_isFile := fun _ => Returns true;
       fs_readFile := fun _ => Returns []; path_extname := fun _ => [];
       chat_extract := fun _ => Throws []; JSON_parse := fun _ => Throws [];
       not_a_function := fun method => method;
       cannot_convert := js "Cannot convert object to primitive value";
       embeddings_create := fun _ => Returns [1; 0]%Q;
       chat_answer := fun _ _ => Throws [];
       db_delete := Returns None; db_insert := fun _ => Returns None;
       db_rpc_match_information := fun _ =>
         Returns {| reply_data := Some []; reply_error := Some (js "timeout") |};
       now_iso := []; elapsed_seconds := []; toFixed1 := fun _ => [] |} in
  retrieval_data (retrieveInformation W (js "Ada") 5 (1 # 10) None) = None.
Proof.
  intros W.
  destruct (retrieveInformation_error_or_data W (js "Ada") 5 (1 # 10) None)
    as (Hdata & _).
  apply Hdata. discriminate.
Defined.

Lemma int4_range (n : Z) : int4 n = true <-> - 2 ^ 31 <= n < 2 ^ 31.
Proof. unfold int4. rewrite andb_true_iff, Z.leb_le, Z.ltb_lt. tauto. Qed.

(** The retriever on the reference deployment, embedding at hand: the rows
    of the SQL function, unless the log of one of them throws. *)
Lemma retrieveInformation_sql (W : Services) (pg : Postgres) (table : list DbRow)
    (userQuery : jsstring) (e : vector) (matchCount : Z) (matchThreshold : Q)
    (metadataFilter : option metadata) :
  db_rpc_match_information W = rpc_via_sql pg table ->
  embeddings_create W userQuery = Returns e ->
  0 <= matchCount < 2 ^ 31 ->
  retrieveInformation W userQuery matchCount matchThreshold metadataFilter
  = let rows :=
      List.map (hit_of pg)
        (take (Z.to_nat matchCount)
           (order_by_distance (keyed_rows pg table e matchThreshold metadataFilter))) in
    if existsb result_log_throws rows then
      {| retrieval_data := None; retrieval_error := Some (cannot_convert W);
         retrieval_queryEmbedding := None; retrieval_matchCount := matchCount |}
    else
      {| retrieval_data := Some rows; retrieval_error := None;
         retrieval_queryEmbedding := Some e; retrieval_matchCount := matchCount |}.
Proof.
  intros Hrpc Hemb Hcount.
  unfold retrieveInformation, generateQueryEmbedding. rewrite Hemb, Hrpc.
  unfold rpc_via_sql. cbn [rpc_match_count rpc_query_embedding rpc_match_threshold
                           rpc_filter].
  assert (Hint : int4 matchCount = true) by (apply int4_range; lia).
  rewrite Hint, match_information_closed.
  destruct (Z.ltb_spec matchCount 0); [lia|]. reflexivity.
Qed.

(** A match_count that is negative or beyond the type [int] is refused. *)
Lemma retrieveInformation_sql_refused (W : Services) (pg : Postgres) (table : list DbRow)
    (userQuery : jsstring) (e : vector) (matchCount : Z) (matchThreshold : Q)
    (metadataFilter : option metadata) :
  db_rpc_match_information W = rpc_via_sql pg table ->
  embeddings_create W userQuery = Returns e ->
  matchCount < 0 \/ 2 ^ 31 <= matchCount ->
  exists message,
    retrieveInformation W userQuery matchCount matchThreshold metadataFilter
    = {| retrieval_data := None; retrieval_error := Some message;
         retrieval_queryEmbedding := Some e; retrieval_matchCount := matchCount |}.
Proof.
  intros Hrpc Hemb Hcount.
  unfold retrieveInformation, generateQueryEmbedding. rewrite Hemb, Hrpc.
  unfold rpc_via_sql. cbn [rpc_match_count rpc_query_embedding rpc_match_threshold
                           rpc_filter].
  destruct (int4 matchCount) eqn:Hint.
  - apply int4_range in Hint. rewrite match_information_closed.
    destruct (Z.ltb_spec matchCount 0); [|lia]. eexists. reflexivity.
  - eexists. reflexivity.
Qed.

(** X19. On the reference deployment (the RPC runs [match_information]
    on the table), when the query embeds: for 0 <= matchCount < 2^31 the
    SQL function returns at most matchCount rows, every one with a
    similarity that is a number above matchThreshold (or NaN) and, when a
    metadata filter is given, with metadata that contains it; and
    [retrieveInformation] returns exactly these rows with no error, unless
    the log of one of them throws (a metadata field it prints cannot be
    converted to a string), in which case it reports that error, with data
    and query embedding null. For a matchCount that is negative or at
    least 2^31 the search is refused: an error and no data. *)
Theorem retrieveInformation_via_sql (W : Services) (pg : Postgres) (table : list DbRow)
    (userQuery : jsstring) (e : vector) (matchCount : Z) (matchThreshold : Q)
    (metadataFilter : option metadata) :
  db_rpc_match_information W = rpc_via_sql pg table ->
  embeddings_create W userQuery = Returns e ->
  (0 <= matchCount < 2 ^ 31 ->
   exists rows,
     match_information pg table e matchCount matchThreshold metadataFilter = Some rows
     /\ Z.of_nat (length rows) <= matchCount
     /\ Forall (fun hit =>
                  match hit_similarity hit with
                  | Finite s => (matchThreshold < s)%Q
                  | NaN => True
                  end
                  /\ forall f, metadataFilter = Some f ->
                       exists m, hit_metadata hit = Some m
                                 /\ jsonb_contains pg m f = true) rows
     /\ retrieveInformation W userQuery matchCount matchThreshold metadataFilter
        = if existsb result_log_throws rows then
            {| retrieval_data := None; retrieval_error := Some (cannot_convert W);
               retrieval_queryEmbedding := None; retrieval_matchCount := matchCount |}
          else
            {| retrieval_data := Some rows; retrieval_error := None;
               retrieval_queryEmbedding := Some e;
               retrieval_matchCount := matchCount |})
  /\ (matchCount < 0 \/ 2 ^ 31 <= matchCount ->
      exists message,
        retrieveInformation W userQuery matchCount matchThreshold metadataFilter
        = {| retrieval_data := None; retrieval_error := Some message;
             retrieval_queryEmbedding := Some e; retrieval_matchCount := matchCount |}).
Proof.
  intros Hrpc Hemb. split.
  - intros Hcount.
    rewrite (retrieveInformation_sql W pg table userQuery e) by assumption.
    rewrite match_information_closed. destruct (Z.ltb_spec matchCount 0); [lia|].
    eexists. split; [reflexivity|]. split; [|split; [|reflexivity]].
    + rewrite length_map, length_take. lia.
    + eapply Forall_impl; [apply hits_clear_threshold_and_filter|].
      intros hit [Hgt Hfilter]. split; [now apply float8_gt_spec | exact Hfilter].
  - now apply (retrieveInformation_sql_refused W pg table).
Qed.

(** One row asked for at threshold 0.5: row 3. Three billion rows asked
    for: refused. *)
Lemma retrieveInformation_via_sql_witness :
  let W := sample_world (Returns (js "{}")) (fun _ => Returns [1; 0]%Q) (Returns None) in
  (exists rows,
     retrieval_data (retrieveInformation W (js "Who proves?") 1 (1 # 2) None) = Some rows
     /\ List.map hit_id rows = [3])
  /\ retrieval_data (retrieveInformation W (js "Who proves?") 3000000000 (1 # 2) None)
     = None.
Proof.
  intros W.
  destruct (retrieveInformation_via_sql W sample_pg sample_table (js "Who proves?")
              [1; 0]%Q 1 (1 # 2) None) as [Hin _]; [reflexivity | reflexivity |].
  destruct (retrieveInformation_via_sql W sample_pg sample_table (js "Who proves?")
              [1; 0]%Q 3000000000 (1 # 2) None) as [_ Hout];
    [reflexivity | reflexivity |].
  destruct Hin as (rows & Hrun & _ & _ & Heq); [lia|].
  destruct Hout as (message & Hrefused); [right; lia|].
  split; [|now rewrite Hrefused].
  assert (Hids : List.map hit_id rows = [3]).
  { assert (Hs : option_map (List.map hit_id) (Some rows) = Some [3])
      by (rewrite <- Hrun; vm_compute; reflexivity).
    cbn [option_map] in Hs. now injection Hs. }
  exists rows. split; [|exact Hids].
  rewrite Heq.
  assert (Hlog : option_map (existsb result_log_throws) (Some rows) = Some false)
    by (rewrite <- Hrun; vm_compute; reflexivity).
  cbn [option_map] in Hlog. injection Hlog as ->. reflexivity.
Defined.

(** A row whose name cannot be printed makes the retriever fail, though
    the search found it. *)
Example retrieveInformation_unprintable_row :
  let W := with_db_insert
             (sample_world (Returns (js "{}")) (fun _ => Returns [1; 0]%Q) (Returns None))
             (fun _ => Returns None) in
  let W' :=
    {| fs_readdir := fs_readdir W; fs_stat_isFile := fs_stat_isFile W;
       fs_readFile := fs_readFile W; path_extname := path_extname W;
       chat_extract := chat_extract W; JSON_parse := JSON_parse W;
       not_a_function := not_a_function W; cannot_convert := cannot_convert W;
       embeddings_create := embeddings_create W; chat_answer := chat_answer W;
       db_delete := db_delete W; db_insert := db_insert W;
       db_rpc_match_information := rpc_via_sql sample_pg sample_table_unprintable;
       now_iso := now_iso W; elapsed_seconds := elapsed_seconds W;
       toFixed1 := toFixed1 W |} in
  (List.map hit_id <$> match_information sample_pg sample_table_unprintable
                         [1; 0]%Q 5 (1 # 2) None) = Some [3; 4; 2]
  /\ retrieveInformation W' (js "Who proves?") 5 (1 # 2) None
     = {| retrieval_data := None;
          retrieval_error := Some (js "Cannot convert object to primitive value");
          retrieval_queryEmbedding := None; retrieval_matchCount := 5 |}.
Proof. cbv zeta. split; vm_compute; reflexivity. Qed.

(** X20. On the reference deployment, for 0 <= matchCount < 2^31, the two
    filtering wrappers do not "accept everything": the rows of the search
    they request, {field: value} for [retrieveByMetadataField] and
    {name: name} for [retrieveByName], each have a similarity that is a
    number strictly above 0 (or NaN) and a metadata object that contains
    the one-key filter, and these rows are the data the wrapper returns
    (no data when the log of one of them throws). A row that matches the
    filter but is at similarity 0 or below is never returned. *)
Theorem filtering_wrappers_via_sql (W : Services) (pg : Postgres)
    (table : list DbRow) (matchCount : Z) :
  db_rpc_match_information W = rpc_via_sql pg table ->
  0 <= matchCount < 2 ^ 31 ->
  (forall (query field : jsstring) (value : json) (e : vector),
      embeddings_create W query = Returns e ->
      exists rows,
        match_information pg table e matchCount 0 (Some {[ field := value ]})
        = Some rows
        /\ retrieval_data (retrieveByMetadataField W query field value matchCount)
           = (if existsb result_log_throws rows then None else Some rows)
        /\ Forall (fun hit =>
                     match hit_similarity hit with
                     | Finite s => (0 < s)%Q
                     | NaN => True
                     end
                     /\ exists m, hit_metadata hit = Some m
                                  /\ jsonb_contains pg m {[ field := value ]} = true)
             rows)
  /\ (forall (name : jsstring) (e : vector),
        embeddings_create W (js "Information about " ++ name) = Returns e ->
        exists rows,
          match_information pg table e matchCount 0 (Some {[ js "name" := JStr name ]})
          = Some rows
          /\ retrieval_data (retrieveByName W name matchCount)
             = (if existsb result_log_throws rows then None else Some rows)
          /\ Forall (fun hit =>
                       match hit_similarity hit with
                       | Finite s => (0 < s)%Q
                       | NaN => True
                       end
                       /\ exists m, hit_metadata hit = Some m
                                    /\ jsonb_contains pg m {[ js "name" := JStr name ]}
                                       = true)
               rows).
Proof.
  intros Hrpc Hcount. split.
  - intros query field value e Hemb. unfold retrieveByMetadataField. cbv zeta.
    rewrite (retrieveInformation_sql W pg table query e) by assumption.
    rewrite match_information_closed. destruct (Z.ltb_spec matchCount 0); [lia|].
    eexists. split; [reflexivity|]. cbv zeta. split.
    + now destruct (existsb result_log_throws _).
    + eapply Forall_impl; [apply hits_clear_threshold_and_filter|].
      intros hit [Hgt Hfilter]. split; [now apply float8_gt_spec | now apply Hfilter].
  - intros name e Hemb. unfold retrieveByName. cbv zeta.
    rewrite (retrieveInformation_sql W pg table _ e) by assumption.
    rewrite match_information_closed. destruct (Z.ltb_spec matchCount 0); [lia|].
    eexists. split; [reflexivity|]. cbv zeta. split.
    + now destruct (existsb result_log_throws _).
    + eapply Forall_impl; [apply hits_clear_threshold_and_filter|].
      intros hit [Hgt Hfilter]. split; [now apply float8_gt_spec | now apply Hfilter].
Qed.

(** The embedding [1; 0]: of the two Ada rows, row 3 is at similarity 1
    and row 1 at similarity 0, so [retrieveByName "Ada"] returns row 3
    alone. *)
Lemma filtering_wrappers_via_sql_witness :
  let W := sample_world (Returns (js "{}")) (fun _ => Returns [1; 0]%Q) (Returns None) in
  List.map hit_id <$> retrieval_data (retrieveByName W (js "Ada") 10) = Some [3].
Proof.
  intros W.
  destruct (filtering_wrappers_via_sql W sample_pg sample_table 10) as (_ & Hname);
    [reflexivity | lia |].
  destruct (Hname (js "Ada") [1; 0]%Q) as (rows & Hrun & Hdata & _); [reflexivity|].
  rewrite Hdata.
  assert (Hlog : option_map (existsb result_log_throws) (Some rows) = Some false)
    by (rewrite <- Hrun; vm_compute; reflexivity).
  cbn [option_map] in Hlog. injection Hlog as ->.
  assert (Hs : option_map (List.map hit_id) (Some rows) = Some [3])
    by (rewrite <- Hrun; vm_compute; reflexivity).
  exact Hs.
Defined.

(** ** Basic answer: the best match *)

(** Rows whose metadata the result log can print. *)
Lemma printable_hits (pg : Postgres) (table : list DbRow) (q : vector) (mt : Q)
    (filter : option metadata) (n : nat) :
  (forall row meta, row ∈ table -> row_metadata row = Some meta ->
                    metadata_log_throws meta = false) ->
  existsb result_log_throws
    (List.map (hit_of pg) (take n (order_by_distance (keyed_rows pg table q mt filter))))
  = false.
Proof.
  intros Hprint.
  pose proof (Forall_hits pg table q mt filter n
                (fun hit => result_log_throws hit = false)) as Hall.
  destruct (existsb result_log_throws _) eqn:Hex; [|reflexivity].
  apply existsb_exists in Hex as (hit & Hin & Hthrows).
  rewrite Forall_forall in Hall. rewrite Hall in Hthrows; [discriminate| |].
  - intros d row Hrow _ _. unfold result_log_throws. cbn.
    destruct (row_metadata row) as [meta|] eqn:Hmeta; [eauto | reflexivity].
  - now apply list_elem_of_In.
Qed.

Lemma getAnswer_sql (W : Services) (pg : Postgres) (table : list DbRow)
    (question : jsstring) (e : vector) :
  db_rpc_match_information W = rpc_via_sql pg table ->
  embeddings_create W question = Returns e ->
  (forall row meta, row ∈ table -> row_metadata row = Some meta ->
                    metadata_log_throws meta = false) ->
  getAnswer W question
  = match order_by_distance (keyed_rows pg table e (1 # 10) None) with
    | [] => {| direct_answer := None; direct_context := None;
               direct_error := Some (js "No relevant information found") |}
    | best :: _ =>
        {| direct_answer := Some (row_content (snd best));
           direct_context :=
             Some {| match_similarity := similarity_of pg (fst best);
                     match_metadata := row_metadata (snd best);
                     match_source := match_source_of (hit_of pg best) |};
           direct_error := None |}
    end.
Proof.
  intros Hrpc Hemb Hprint. unfold getAnswer. cbv zeta.
  rewrite (retrieveInformation_sql W pg table question e) by (trivial; lia).
  cbv zeta. rewrite printable_hits by exact Hprint.
  cbn [retrieval_error retrieval_data].
  now destruct (order_by_distance (keyed_rows pg table e (1 # 10) None)).
Qed.

(** X21. On the reference deployment, for a question that embeds and a
    table whose metadata the result log can print: [getAnswer] gives an
    answer exactly when some row of the table passes the threshold test at
    0.1 (its similarity is a number above 0.1, or NaN); the answer is then
    the content of a row of the table, and (rounding [1 - d] keeping the
    order) when the similarity answered with is a number no row of the
    table is more similar to the question, while an answer of similarity
    NaN is given only when no row has a numeric similarity above 0.1. *)
Theorem getAnswer_best_match (W : Services) (pg : Postgres) (table : list DbRow)
    (question : jsstring) (e : vector) :
  db_rpc_match_information W = rpc_via_sql pg table ->
  embeddings_create W question = Returns e ->
  rounding_monotone pg ->
  (forall row meta, row ∈ table -> row_metadata row = Some meta ->
                    metadata_log_throws meta = false) ->
  (is_Some (direct_answer (getAnswer W question))
   <-> exists row embedding,
         row ∈ table /\ row_embedding row = Some embedding
         /\ float8_gt (similarity_of pg (cosine_distance pg embedding e)) (1 # 10)
            = true)
  /\ forall answer context,
       direct_answer (getAnswer W question) = Some answer ->
       direct_context (getAnswer W question) = Some context ->
       (exists row, row ∈ table /\ answer = row_content row)
       /\ float8_gt (match_similarity context) (1 # 10) = true
       /\ forall row embedding s,
            row ∈ table -> row_embedding row = Some embedding ->
            similarity_of pg (cosine_distance pg embedding e) = Finite s ->
            match match_similarity context with
            | Finite best => (s <= best)%Q
            | NaN => (s <= 1 # 10)%Q
            end.
Proof.
  intros Hrpc Hemb Hmono Hprint.
  rewrite (getAnswer_sql W pg table question e Hrpc Hemb Hprint).
  pose proof (order_by_distance_sorted (keyed_rows pg table e (1 # 10) None)) as Hsorted.
  pose proof (order_by_distance_perm (keyed_rows pg table e (1 # 10) None)) as Hperm.
  assert (Hqual : forall row embedding,
             row ∈ table -> row_embedding row = Some embedding ->
             float8_gt (similarity_of pg (cosine_distance pg embedding e)) (1 # 10)
             = true ->
             (cosine_distance pg embedding e, row)
             ∈ order_by_distance (keyed_rows pg table e (1 # 10) None)).
  { intros row emb Hin Hrow Hgt. rewrite Hperm. apply elem_of_keyed_rows.
    split; [exact Hin|]. split.
    - apply where_clause_spec. split; [eauto | discriminate].
    - unfold distance. now rewrite Hrow. }
  destruct (order_by_distance (keyed_rows pg table e (1 # 10) None))
    as [|[d best] rest] eqn:Hlist.
  - cbn [direct_answer direct_context]. split.
    + split; [intros [a [=]]|].
      intros (row & emb & Hin & Hrow & Hgt).
      specialize (Hqual row emb Hin Hrow Hgt). now apply elem_of_nil in Hqual.
    + discriminate.
  - assert (Hbest : (d, best) ∈ keyed_rows pg table e (1 # 10) None)
      by (rewrite <- Hperm; apply list_elem_of_here).
    apply elem_of_keyed_rows in Hbest as (Hin & Hwhere & Hd).
    apply where_clause_spec in Hwhere as [(emb & Hrow & Hgt) _].
    unfold distance in Hd. rewrite Hrow in Hd. injection Hd as <-.
    cbn [direct_answer direct_context fst snd]. split.
    + split; [intros _ | eauto]. now exists best, emb.
    + intros answer context [= <-] [= <-]. cbn [match_similarity].
      split; [now exists best|]. split; [exact Hgt|].
      intros row emb' s Hin' Hrow' Hsim.
      assert (Hle : (1 # 10 < s)%Q ->
                    float8_le (cosine_distance pg emb e) (cosine_distance pg emb' e)
                    = true).
      { intros Hs.
        assert (Hgt' : float8_gt (similarity_of pg (cosine_distance pg emb' e)) (1 # 10)
                       = true) by (rewrite Hsim; now apply float8_gt_spec).
        specialize (Hqual row emb' Hin' Hrow' Hgt').
        apply elem_of_cons in Hqual as [[= <- <-] | Hrest].
        - destruct (cosine_distance pg emb' e); cbn; [|reflexivity].
          apply Qle_bool_iff. lra.
        - inversion Hsorted as [|? ? _ Hall]; subst.
          rewrite Forall_forall in Hall. exact (Hall _ Hrest). }
      apply float8_gt_spec in Hgt.
      destruct (cosine_distance pg emb' e) as [y|] eqn:Hy; [|discriminate Hsim].
      cbn in Hsim. injection Hsim as <-.
      destruct (cosine_distance pg emb e) as [x|] eqn:Hx; cbn in Hgt |- *.
      * destruct (Qlt_le_dec (1 # 10) (one_minus pg y)) as [Hq | Hq]; [|lra].
        specialize (Hle Hq). cbn in Hle. apply Qle_bool_iff in Hle.
        now apply Hmono.
      * destruct (Qlt_le_dec (1 # 10) (one_minus pg y)) as [Hq | Hq]; [|exact Hq].
        specialize (Hle Hq). discriminate Hle.
Qed.

(** The sample table asked from the embedding [1; 0]: row 3 is the most
    similar and is the answer. *)
Lemma getAnswer_best_match_witness :
  let W := sample_world (Returns (js "{}")) (fun _ => Returns [1; 0]%Q) (Returns None) in
  direct_answer (getAnswer W (js "Who reviews proofs?")) = Some (js "Ada reviews proofs").
Proof.
  intros W.
  destruct (getAnswer_best_match W sample_pg sample_table (js "Who reviews proofs?")
              [1; 0]%Q) as ([_ Hsome] & _);
    [reflexivity | reflexivity | intros a b Hab; cbn; lra | |].
  - intros row meta Hin Hmeta. unfold sample_table in Hin.
    rewrite !elem_of_cons in Hin.
    destruct Hin as [-> | [-> | [-> | Hin]]];
      [| | | now apply elem_of_nil in Hin];
      injection Hmeta as <-; vm_compute; reflexivity.
  - destruct Hsome as [a Ha].
    + exists (sample_row 3 "Ada reviews proofs" "Ada" [1; 0]%Q), [1; 0]%Q.
      split; [unfold sample_table; set_solver|]. split; [reflexivity|].
      vm_compute. reflexivity.
    + rewrite Ha. f_equal.
      assert (Hs : Some a = Some (js "Ada reviews proofs"))
        by (rewrite <- Ha; vm_compute; reflexivity).
      now injection Hs.
Defined.

Lemma retrieval_fails_error (W : Services) (question : jsstring) (matchCount : Z)
    (matchThreshold : Q) (message : jsstring) :
  retrieval_fails W question matchCount matchThreshold message ->
  retrieval_error (retrieveInformation W question matchCount matchThreshold None)
  = Some message.
Proof.
  unfold retrieval_fails, retrieveInformation, generateQueryEmbedding.
  intros [Hemb | (e & Hemb & [Hrpc | (reply & Hrpc & Hreply)])];
    rewrite Hemb; [reflexivity | |]; cbv zeta in Hrpc; rewrite Hrpc;
    [reflexivity | now rewrite Hreply].
Qed.

(** X22. The two answer functions treat a failed retrieval differently:
    for the same failure (embedding call or search), [getAnswer] returns
    the error with no answer, while [getEnhancedAnswer] returns an answer
    text with error null. *)
Theorem getAnswer_surfaces_retrieval_error (W : Services) (question message : jsstring) :
  retrieval_fails W question 3 (1 # 10) message ->
  direct_error (getAnswer W question) = Some message
  /\ direct_answer (getAnswer W question) = None
  /\ answer_error (getEnhancedAnswer W question 3 (1 # 10)) = None
  /\ is_Some (answer_answer (getEnhancedAnswer W question 3 (1 # 10))).
Proof.
  intros Hfail. pose proof (retrieval_fails_error W question 3 (1 # 10) message Hfail) as Herr.
  unfold getAnswer, getEnhancedAnswer. cbv zeta. rewrite Herr.
  cbn. repeat split. eauto.
Qed.

Lemma getAnswer_surfaces_retrieval_error_witness :
  let W := sample_world (Returns (js "{}")) (fun _ => Throws (js "401 invalid api key"))
             (Returns None) in
  direct_error (getAnswer W (js "Who proves theorems?")) = Some (js "401 invalid api key")
  /\ answer_error (getEnhancedAnswer W (js "Who proves theorems?") 3 (1 # 10)) = None.
Proof.
  intros W.
  destruct (getAnswer_surfaces_retrieval_error W (js "Who proves theorems?")
              (js "401 invalid api key")) as (Hdirect & _ & Henhanced & _);
    [left; reflexivity|].
  split; assumption.
Defined.

(** ** Answer synthesizer: the shape of every result *)

(** X23. Every result of [getEnhancedAnswer] has either an answer or an
    error, never both and never neither; sources and context are null
    exactly when there is an error; and when both are present the number
    of sources is context.retrievedCount. *)
Theorem getEnhancedAnswer_shape (W : Services) (question : jsstring)
    (matchCount : Z) (matchThreshold : Q) :
  let r := getEnhancedAnswer W question matchCount matchThreshold in
  (answer_answer r = None <-> answer_error r <> None)
  /\ (answer_sources r = None <-> answer_error r <> None)
  /\ (answer_context r = None <-> answer_error r <> None)
  /\ forall sources context,
       answer_sources r = Some sources -> answer_context r = Some context ->
       length sources = context_retrievedCount context.
Proof.
  cbv zeta. unfold getEnhancedAnswer. cbv zeta.
  assert (Hcanned :
    (answer_answer could_not_find = None <-> answer_error could_not_find <> None)
    /\ (answer_sources could_not_find = None <-> answer_error could_not_find <> None)
    /\ (answer_context could_not_find = None <-> answer_error could_not_find <> None)
    /\ forall sources context,
         answer_sources could_not_find = Some sources ->
         answer_context could_not_find = Some context ->
         length sources = context_retrievedCount context).
  { cbn. repeat split; try congruence. intros sources context [= <-] [= <-]. reflexivity. }
  destruct (retrieval_error _) as [error|]; [exact Hcanned|].
  destruct (retrieval_data _) as [[|item data]|]; [exact Hcanned | | exact Hcanned].
  destruct (chat_answer W question (item :: data)) as [completion|message];
    [destruct (completion_content completion) as [[|c text]|]|];
    cbn; repeat split; try congruence;
    intros sources context [= <-] [= <-]; cbn; now rewrite length_imap.
Qed.

(** The sample deployment answering a question: one source, counted. *)
Lemma getEnhancedAnswer_shape_witness :
  let W := sample_world (Returns (js "{}")) (fun _ => Returns [1; 0]%Q) (Returns None) in
  exists sources context,
    answer_sources (getEnhancedAnswer W (js "Who?") 1 (1 # 2)) = Some sources
    /\ answer_context (getEnhancedAnswer W (js "Who?") 1 (1 # 2)) = Some context
    /\ length sources = context_retrievedCount context
    /\ context_retrievedCount context = 1%nat.
Proof.
  intros W.
  destruct (getEnhancedAnswer_shape W (js "Who?") 1 (1 # 2)) as (_ & _ & _ & Hcount).
  destruct (answer_sources (getEnhancedAnswer W (js "Who?") 1 (1 # 2)))
    as [sources|] eqn:Hs; [|vm_compute in Hs; discriminate Hs].
  destruct (answer_context (getEnhancedAnswer W (js "Who?") 1 (1 # 2)))
    as [context|] eqn:Hc; [|vm_compute in Hc; discriminate Hc].
  exists sources, context. repeat split. 
  - exact (Hcount sources context eq_refl eq_refl).
  - assert (Hn : option_map context_retrievedCount (Some context) = Some 1%nat)
      by (rewrite <- Hc; vm_compute; reflexivity).
    cbn in Hn. now injection Hn.
Defined.



(** ** HTTP handlers: status codes *)

Lemma trim_nil_iff (s : jsstring) :
  trim s = [] <-> Forall (fun c => is_ws c = true) s.
Proof.
  split; [|apply trim_all_ws].
  intros Hnil. unfold trim in Hnil.
  destruct (trimStart_split s) as (run1 & Hrun1 & Hs).
  destruct (trimEnd_split (trimStart s)) as (run2 & Hrun2 & Hmid).
  rewrite Hnil in Hmid. cbn in Hmid. rewrite Hs, Hmid. now apply Forall_app.
Qed.

(** X25. The question of a request is refused exactly when it is absent,
    is not a string, or is a string of whitespace only (the empty string
    included); [handleGetAnswer] and [handleEnhancedAnswer] then answer
    400 with error INVALID_QUESTION, and otherwise never answer 400. *)
Theorem question_validation (W : Services) (question : option json)
    (matchCount : option Z) (matchThreshold : option Q) :
  let refused :=
    forall s, question = Some (JStr s) -> Forall (fun c => is_ws c = true) s in
  (required_text question = None <-> refused)
  /\ (response_status (handleGetAnswer W question) = 400%nat <-> refused)
  /\ (response_status (handleEnhancedAnswer W question matchCount matchThreshold)
      = 400%nat <-> refused).
Proof.
  cbv zeta.
  assert (Hreq : required_text question = None
                 <-> forall s, question = Some (JStr s) ->
                               Forall (fun c => is_ws c = true) s).
  { unfold required_text. destruct question as [[| | |s| |]|];
      try (split; [intros _ s' [=] | reflexivity]).
    destruct (trim s) as [|c r] eqn:Htrim.
    - split; [|reflexivity]. intros _ s' [= <-]. now apply trim_nil_iff.
    - split; [discriminate|]. intros Hall.
      specialize (Hall s eq_refl). apply trim_nil_iff in Hall. congruence. }
  split; [exact Hreq|]. rewrite <- Hreq.
  unfold handleGetAnswer, handleEnhancedAnswer.
  destruct (required_text question) as [q|]; [|now split].
  split.
  - destruct (direct_error (getAnswer W (trim q))); cbn; split; discriminate.
  - destruct (answer_error (getEnhancedAnswer W (trim q) _ _)); cbn; split; discriminate.
Qed.

(** A question of two blanks and a tab. *)
Lemma question_validation_witness :
  let W := sample_world (Returns (js "{}")) (fun _ => Returns [1; 0]%Q) (Returns None) in
  response_status (handleEnhancedAnswer W (Some (JStr [32; 32; 9]%N)) None None)
  = 400%nat.
Proof.
  intros W.
  destruct (question_validation W (Some (JStr [32; 32; 9]%N)) None None)
    as (_ & _ & [_ Hrefused]).
  apply Hrefused. intros s [= <-]. repeat constructor.
Defined.



(** X27. [handleGetAnswer] on an accepted question answers 200 exactly
    when the retrieval (three rows, threshold 0.1) reports no error and
    returns at least one row, and 404 otherwise: a failure of the
    embedding or search service is answered 404, with its message, like a
    question without match, and never 500. *)
Theorem handleGetAnswer_status (W : Services) (question : option json) (q : jsstring) :
  required_text question = Some q ->
  let r := retrieveInformation W (trim q) 3 (1 # 10) None in
  let response := handleGetAnswer W question in
  (response_status response = 200%nat \/ response_status response = 404%nat)
  /\ (response_status response = 200%nat
      <-> retrieval_error r = None
          /\ exists item data, retrieval_data r = Some (item :: data))
  /\ forall message,
       retrieval_error r = Some message ->
       response = {| response_status := 404;
                     response_body :=
                       Failed (js "No relevant information found") (Some message) |}.
Proof.
  intros Hq. cbv zeta. unfold handleGetAnswer. rewrite Hq.
  unfold getAnswer. cbv zeta.
  destruct (retrieval_error _) as [error|].
  { cbn. split; [now right|]. split; [|now intros message [= <-]].
    split; [discriminate | intros [[=] _]]. }
  destruct (retrieval_data _) as [[|item data]|]; cbn.
  - split; [now right|]. split; [|discriminate].
    split; [discriminate | intros [_ (i & d & [=])]].
  - split; [now left|]. split; [|discriminate].
    split; [|reflexivity]. intros _. split; [reflexivity | eauto].
  - split; [now right|]. split; [|discriminate].
    split; [discriminate | intros [_ (i & d & [=])]].
Qed.

Lemma handleGetAnswer_status_witness :
  let W := sample_world (Returns (js "{}")) (fun _ => Throws (js "401 invalid api key"))
             (Returns None) in
  handleGetAnswer W (Some (JStr (js " Who proves? ")))
  = {| response_status := 404;
       response_body :=
         Failed (js "No relevant information found") (Some (js "401 invalid api key")) |}.
Proof.
  intros W.
  destruct (handleGetAnswer_status W (Some (JStr (js " Who proves? ")))
              (js " Who proves? ")) as (_ & _ & Hfail); [reflexivity|].
  apply Hfail. reflexivity.
Defined.



(** ** Log history *)

Lemma broadcast_spec {E : Type} (h : list E) (e : E) :
  (length h <= MAX_LOGS)%nat ->
  broadcast h e = drop (length (h ++ [e]) - MAX_LOGS) (h ++ [e])
  /\ (length (broadcast h e) <= MAX_LOGS)%nat.
Proof.
  intros Hlen. unfold broadcast. cbv zeta. rewrite length_app. cbn [length].
  destruct (Nat.ltb_spec MAX_LOGS (length h + 1)) as [Hfull | Hroom].
  - replace (length h + 1 - MAX_LOGS)%nat with 1%nat by lia.
    split; [reflexivity|]. rewrite length_drop, length_app. cbn [length]. lia.
  - replace (length h + 1 - MAX_LOGS)%nat with 0%nat by lia.
    split; [reflexivity|]. rewrite length_app. cbn [length]. lia.
Qed.

(** X29. The log history is a window on the last [MAX_LOGS] entries:
    starting from a history within the bound, after any sequence of
    broadcasts it holds the most recent [MAX_LOGS] entries of everything
    logged, oldest first, and so never more than [MAX_LOGS]. *)
Theorem broadcast_history {E : Type} (es : list E) :
  forall h : list E,
    (length h <= MAX_LOGS)%nat ->
    foldl broadcast h es = drop (length (h ++ es) - MAX_LOGS) (h ++ es)
    /\ (length (foldl broadcast h es) <= MAX_LOGS)%nat.
Proof.
  induction es as [|e es IH]; intros h Hlen.
  - cbn [foldl]. rewrite app_nil_r.
    replace (length h - MAX_LOGS)%nat with 0%nat by lia. now split.
  - cbn [foldl]. destruct (broadcast_spec h e Hlen) as [Hb Hb'].
    destruct (IH (broadcast h e) Hb') as [Hfold Hbound].
    split; [|exact Hbound]. rewrite Hfold, Hb.
    set (k := (length (h ++ [e]) - MAX_LOGS)%nat).
    assert (Hk : (k <= length (h ++ [e]))%nat) by (unfold k; lia).
    rewrite <- (drop_app_le (h ++ [e]) es k Hk), <- app_assoc. cbn [app].
    rewrite drop_drop, length_drop. f_equal.
    unfold k. rewrite !length_app. cbn [length]. lia.
Qed.

(** 1003 entries logged into an empty history: entries 3 to 1002 remain. *)
Lemma broadcast_history_witness :
  foldl broadcast [] (seq 0 1003) = seq 3 1000.
Proof.
  destruct (broadcast_history (seq 0 1003) []) as [Hfold _]; [cbn; lia|].
  rewrite Hfold. vm_compute. reflexivity.
Defined.

(** X30. [getHistory(count)] returns the last count entries for a
    positive count (all of them when count exceeds the length), and for
    count 0 it returns the whole history, not an empty list, because
    slice(-0) is slice(0). *)
Theorem getHistory_count {E : Type} (h : list E) (count : Z) :
  0 <= count ->
  getHistory h count
  = if count =? 0 then h else drop (length h - Z.to_nat count) h.
Proof.
  intros Hcount. unfold getHistory, slice. cbv zeta.
  assert (Hend : (Z.of_nat (length h) <? 0) = false) by (apply Z.ltb_ge; lia).
  rewrite Hend, Z.min_id.
  destruct (Z.eqb_spec count 0) as [-> | Hpos].
  - cbn [Z.opp]. change (0 <? 0) with false. cbv iota.
    rewrite Z.min_l by lia. rewrite Z.sub_0_r, Nat2Z.id. cbn [drop].
    apply take_ge. lia.
  - assert (Hneg : (- count <? 0) = true) by (apply Z.ltb_lt; lia).
    rewrite Hneg.
    replace (Z.to_nat (Z.max (Z.of_nat (length h) + - count) 0))
      with (length h - Z.to_nat count)%nat by lia.
    apply take_ge. rewrite length_drop. lia.
Qed.

Lemma getHistory_count_witness :
  getHistory [1; 2; 3; 4] 0 = [1; 2; 3; 4] /\ getHistory [1; 2; 3; 4] 3 = [2; 3; 4].
Proof.
  split.
  - rewrite (getHistory_count [1; 2; 3; 4] 0); [reflexivity | lia].
  - rewrite (getHistory_count [1; 2; 3; 4] 3); [reflexivity | lia].
Defined.
